(** * Query Authorization Gateway: statement validator, table extractor,
      role policy, bounded executor and chart shaper.

    Shallow embedding of
      - [db.py] and [security.py] of the [with_copilot_12-30] iteration
        ([_is_safe_statement], [_extract_table_names], [secure_run_query],
        [run_query], [allowed_tables_for_role]);
      - [chatbot_pipeline.py] of the [user_19-12] iteration
        ([parse_datetime_safe], [render_graph_png], [is_greeting],
        [classify_intent]);
      - [chatbot_pipeline.py], [auth.py] and [main.py] of the
        [with_copilot_12-30] iteration ([is_greeting], [classify_intent],
        [decide_output_type], [handle_nl2sql], [authenticate_user],
        [chat_endpoint]).

    Python [str] values are lists of 8-bit characters, read as the code
    points 0 to 255 (ASCII and the Latin-1 supplement).  On these the
    helpers below are Python's: [lower] also maps the capital letters
    U+00C0 to U+00DE, [strip] and the class [\s] also take U+0085 and
    U+00A0 for white space, and the class [\w], which decides [\b], also
    holds the letters and digits above U+007F.  Texts with a code point
    above 255 are outside the model.

    SQLite, [datetime.strptime], [float], matplotlib and the language
    model ([natural_to_sql], [summarize_results]) are parameters of the
    sections that use them.  The two functions of the language model are
    taken to return; [conn.cursor()] and [conn.close()] are taken not to
    raise. *)

From Stdlib Require Import List Ascii String ZArith Lia Bool Arith PeanoNat.
From Stdlib Require Import DecimalString Sorted.
Import ListNotations.

Set Implicit Arguments.

(* ================================================================== *)
(** * Part I: the program                                              *)
(* ================================================================== *)

(** ** Python strings *)

Module PyStr.

Definition str : Type := list ascii.

(** A literal of the source. *)
Definition lit (s : string) : str := list_ascii_of_string s.

Definition code (c : ascii) : nat := nat_of_ascii c.

Definition in_range (lo hi : nat) (c : ascii) : bool :=
  (lo <=? code c) && (code c <=? hi).

Definition is_upper (c : ascii) : bool := in_range 65 90 c.
Definition is_lower (c : ascii) : bool := in_range 97 122 c.
Definition is_digit (c : ascii) : bool := in_range 48 57 c.
Definition is_underscore (c : ascii) : bool := code c =? 95.

(** The classes [[A-Za-z_]] and [[A-Za-z0-9_]] that the patterns write
    out.  [re.IGNORECASE] adds no code point below 256 to them. *)
Definition is_ident_start (c : ascii) : bool :=
  is_upper c || is_lower c || is_underscore c.
Definition is_word (c : ascii) : bool :=
  is_ident_start c || is_digit c.

(** [\w] of a [str] pattern, the class that [\b] looks at: the
    underscore and the characters for which [str.isalnum()] holds.  Below
    256 these are the ASCII letters and digits, the ordinal indicators
    U+00AA and U+00BA, the superscripts U+00B2, U+00B3 and U+00B9, the
    micro sign U+00B5, the fractions U+00BC to U+00BE, and the letters
    U+00C0 to U+00FF without the signs U+00D7 and U+00F7. *)
Definition is_unicode_word (c : ascii) : bool :=
  is_word c
  || (code c =? 170) || in_range 178 179 c || (code c =? 181)
  || in_range 185 186 c || in_range 188 190 c
  || in_range 192 214 c || in_range 216 246 c || in_range 248 255 c.

(** [\s] of a [str] pattern and the characters removed by
    [str.strip()]: TAB, LF, VT, FF, CR, FS, GS, RS, US, the space, the
    next-line control U+0085 and the no-break space U+00A0. *)
Definition is_space (c : ascii) : bool :=
  in_range 9 13 c || in_range 28 32 c || (code c =? 133) || (code c =? 160).

(** [str.lower()]: the capital letters are A to Z and U+00C0 to U+00DE
    without the multiplication sign U+00D7; each has its small letter 32
    places further on. *)
Definition is_capital (c : ascii) : bool :=
  is_upper c || in_range 192 214 c || in_range 216 222 c.
Definition lower_char (c : ascii) : ascii :=
  if is_capital c then ascii_of_nat (code c + 32) else c.
Definition lower (s : str) : str := map lower_char s.

Definition eqb_char (a b : ascii) : bool := Ascii.eqb a b.

Fixpoint eqb (a b : str) : bool :=
  match a, b with
  | [], [] => true
  | x :: a', y :: b' => eqb_char x y && eqb a' b'
  | _, _ => false
  end.

(** [s.count(c)] for a one-character needle. *)
Fixpoint count (c : ascii) (s : str) : nat :=
  match s with
  | [] => 0
  | x :: r => (if eqb_char x c then 1 else 0) + count c r
  end.

(** [s.startswith(p)] *)
Fixpoint startswith (p s : str) : bool :=
  match p, s with
  | [], _ => true
  | x :: p', y :: s' => eqb_char x y && startswith p' s'
  | _ :: _, [] => false
  end.

(** [s.endswith(p)] *)
Definition endswith (p s : str) : bool := startswith (rev p) (rev s).

(** [needle in hay] *)
Fixpoint contains (needle hay : str) : bool :=
  startswith needle hay ||
  match hay with
  | [] => false
  | _ :: r => contains needle r
  end.

(** [t in (a, b, ...)] and [t in some_list] *)
Definition mem (t : str) (l : list str) : bool := existsb (eqb t) l.

(** [s.strip()] *)
Fixpoint lstrip (s : str) : str :=
  match s with
  | c :: r => if is_space c then lstrip r else s
  | [] => []
  end.
Definition rstrip (s : str) : str := rev (lstrip (rev s)).
Definition strip (s : str) : str := rstrip (lstrip s).

(** [str(n)] for an [int]. *)
Definition str_of_int (n : Z) : str :=
  lit (NilZero.string_of_int (Z.to_int n)).

(** Comparison of strings by code point, the order of [sorted]. *)
Fixpoint leb (a b : str) : bool :=
  match a, b with
  | [], _ => true
  | _ :: _, [] => false
  | x :: a', y :: b' =>
      if code x <? code y then true
      else if code y <? code x then false
      else leb a' b'
  end.

(** Longest prefix of [s] whose characters satisfy [p], and the rest. *)
Fixpoint span (p : ascii -> bool) (s : str) : str * str :=
  match s with
  | c :: r =>
      if p c then let (a, b) := span p r in (c :: a, b) else ([], s)
  | [] => ([], [])
  end.

End PyStr.

Import PyStr.

(** ** [db.py] *)

Module Db.

(** *** Statement validator ([_is_safe_statement]) *)

Definition forbidden : list str :=
  map lit
    ["drop "; "delete "; "update "; "insert "; "alter "; "attach ";
     "detach "; "vacuum"; "pragma"; "--"; "/*"; "sqlite_master"]%string.

(** The loop [for f in forbidden: if f in low: return False], then the
    final [return True]. *)
Fixpoint scan_forbidden (fs : list str) (low : str) : bool :=
  match fs with
  | [] => true
  | f :: rest => if contains f low then false else scan_forbidden rest low
  end.

Definition _is_safe_statement (sql : str) : bool :=
  let low := lower sql in
  if 1 <? count ";"%char sql then false
  else scan_forbidden forbidden low.

(** The same control flow, recording which [return] is reached: the
    multi-statement test, the denylist loop (with the entry that matched)
    or the final [return True]. *)
Inductive verdict : Type :=
| Accepted
| MultiStatementReject
| ForbiddenKeywordReject (f : str).

Fixpoint first_forbidden (fs : list str) (low : str) : option str :=
  match fs with
  | [] => None
  | f :: rest => if contains f low then Some f else first_forbidden rest low
  end.

Definition validate (sql : str) : verdict :=
  let low := lower sql in
  if 1 <? count ";"%char sql then MultiStatementReject
  else match first_forbidden forbidden low with
       | Some f => ForbiddenKeywordReject f
       | None => Accepted
       end.

Definition verdict_ok (v : verdict) : bool :=
  match v with Accepted => true | _ => false end.

(** *** Table reference extractor ([_extract_table_names]) *)

Module Regex.

(** Whether a neighbour of a position is a word character, in the sense
    of [\w]; there is none ([None]) at either end of the text. *)
Definition is_word_opt (c : option ascii) : bool :=
  match c with Some c => is_unicode_word c | None => false end.

(** [\b] between the character before the position ([None] at the start of
    the text) and the character at it ([None] at the end). *)
Definition word_boundary (prev next : option ascii) : bool :=
  xorb (is_word_opt prev) (is_word_opt next).

(** A literal under [re.IGNORECASE], matched at the head of [s]. *)
Definition ci_startswith (p s : str) : bool :=
  startswith (lower p) (lower s).

Definition last_error (s : str) : option ascii :=
  match rev s with c :: _ => Some c | [] => None end.

(** One attempt, at the head of [s] and with [prev] the character before
    it, of the pattern of pass 1 under [re.IGNORECASE]: [\b], then
    [from] or [join], then [\s+], then group 1, an [[A-Za-z_]] followed by
    any number of [[A-Za-z0-9_]].  [\s+] and the
    identifier tail are greedy, and giving back a character never helps:
    the character after the white space must start an identifier.
    Returns group 1 and the length of the whole match. *)
Definition match_from_join (prev : option ascii) (s : str)
  : option (str * nat) :=
  if word_boundary prev (hd_error s)
     && (ci_startswith (lit "from") s || ci_startswith (lit "join") s)
  then
    let (ws, rest) := span is_space (skipn 4 s) in
    match ws, rest with
    | _ :: _, c :: r =>
        if is_ident_start c
        then let (tail, _) := span is_word r in
             Some (c :: tail, 4 + List.length ws + 1 + List.length tail)
        else None
    | _, _ => None
    end
  else None.

(** [re.finditer]: matches from left to right, the search resuming where
    the previous match ended.  [skip] counts the characters of the
    current match that are still to be passed over. *)
Fixpoint finditer_from_join (prev : option ascii) (skip : nat) (s : str)
  : list str :=
  match s with
  | [] => []
  | c :: rest =>
      match skip with
      | S k => finditer_from_join (Some c) k rest
      | O =>
          match match_from_join prev s with
          | Some (g, len) => g :: finditer_from_join (Some c) (len - 1) rest
          | None => finditer_from_join (Some c) 0 rest
          end
      end
  end.

(** One attempt of [\b{k}\b] under [re.IGNORECASE] at the head of [s]. *)
Definition match_word (k : str) (prev : option ascii) (s : str) : bool :=
  word_boundary prev (hd_error s)
  && ci_startswith k s
  && word_boundary (last_error (firstn (List.length k) s))
                   (hd_error (skipn (List.length k) s)).

(** [re.search(rf"\b{k}\b", s, re.IGNORECASE)] as a truth value. *)
Fixpoint search_word (k : str) (prev : option ascii) (s : str) : bool :=
  match_word k prev s ||
  match s with
  | [] => false
  | c :: r => search_word k (Some c) r
  end.

(** [re.match] of the pattern of line 105 as a truth value: at the start
    of [t], one or more [[a-zA-Z0-9_]] followed by an opening parenthesis,
    or a single quote, or a double quote. *)
Definition match_function_or_quote (t : str) : bool :=
  (let (run, rest) := span is_word t in
   match run with
   | [] => false
   | _ :: _ => startswith (lit "(") rest
   end)
  || startswith (lit "'") t
  || startswith ["034"%char] t.

End Regex.

(** A Python [set] of strings, and [sorted]. *)
Definition set_add (t : str) (s : list str) : list str :=
  if mem t s then s else t :: s.

Fixpoint insert_sorted (t : str) (l : list str) : list str :=
  match l with
  | [] => [t]
  | x :: r => if PyStr.leb t x then t :: l else x :: insert_sorted t r
  end.

Definition sorted (l : list str) : list str :=
  fold_right insert_sorted [] l.

Definition known : list str :=
  map lit ["meter_table"; "customer_table"; "revenue_data"]%string.

Definition _extract_table_names (sql : str) : list str :=
  let tables : list str := [] in
  (* 1) names after FROM or JOIN *)
  let tables :=
    fold_left (fun acc g => set_add (lower g) acc)
              (Regex.finditer_from_join None 0 sql) tables in
  (* 2) known table literals *)
  let tables :=
    fold_left (fun acc k => if Regex.search_word k None sql
                            then set_add k acc else acc)
              known tables in
  sorted tables.

(** *** Bounded executor ([secure_run_query] and [run_query]) *)

(** Lines 91-96: the statement handed to the engine. *)
Definition capped_statement (sql : str) (max_rows : Z) : str :=
  let q := strip sql in
  let low := lower q in
  if startswith (lit "select") low
     && negb (contains (lit " limit ") low)
     && negb (endswith (lit "limit") low)
  then
    let q := if endswith (lit ";") q then removelast q else q in
    q ++ lit " LIMIT " ++ str_of_int max_rows ++ lit ";"
  else q.

Definition skipped_tokens : list str :=
  map lit [""; ","; "select"; "from"; "where"; "join"; "on"; "group";
           "by"; "order"]%string.

(** Lines 101-108: the table the loop returns on, if any. *)
Fixpoint first_unauthorized (tables role_allowed_tables : list str)
  : option str :=
  match tables with
  | [] => None
  | t :: rest =>
      if mem t skipped_tokens
      then first_unauthorized rest role_allowed_tables
      else if Regex.match_function_or_quote t
      then first_unauthorized rest role_allowed_tables
      else if negb (mem t role_allowed_tables) then Some t
      else first_unauthorized rest role_allowed_tables
  end.

Definition unsafe_message : str :=
  lit "Unsafe or disallowed SQL statement detected.".

Definition unauthorized_message (t : str) : str :=
  lit "unauthorized_table_access: '" ++ t
  ++ lit "' is not permitted for your role".

(** The calls on the connection that may raise apart from the statement
    and the commit: [sqlite3.connect] (with [conn.cursor()]) before the
    [try] statement, [BEGIN] inside it, and [conn.rollback()] in the
    handler.  [None] stands for a call that succeeds, [Some message] for
    one that raises. *)
Record environment : Type :=
  mkEnv { connect_error : option str;
          begin_error : option str;
          rollback_error : option str }.

(** The environment in which the three calls succeed. *)
Definition no_failure : environment := mkEnv None None None.

Section Executor.

(** The contents of the database file, and a fetched row. *)
Variable db : Type.
Variable row : Type.

(** What SQLite does with one statement on the contents it sees: it
    raises (leaving some changed contents behind), or it completes with
    new contents, the rows of [fetchall()] and the column names of
    [cur.description] ([None] for a statement that returns no rows). *)
Inductive stmt_outcome : Type :=
| StmtRaises (message : str) (work' : db)
| StmtDone (work' : db) (rows : list row) (description : option (list str)).

Variable sqlite_execute : db -> str -> stmt_outcome.

(** [conn.commit()] of a working state: [Some message] when it raises. *)
Variable sqlite_commit_error : db -> option str.

(** The three dictionaries [secure_run_query] returns. *)
Inductive query_result : Type :=
| ErrorDict (error : str)
| UnauthorizedDict (error : str) (unauthorized_table : str)
| RowsDict (rows : list row) (columns : list str).

(** The file on disk and the number of connections that are open. *)
Record world : Type := mkWorld { disk : db; open_handles : nat }.

(** A connection: the contents it sees, and whether a transaction is
    open on it.  Outside a transaction SQLite is in autocommit mode: what
    a statement leaves behind is written to the file when the statement
    ends.  Inside one, the changes stay with the connection until
    [commit()] writes them or [rollback()] drops them. *)
Record connection : Type :=
  mkConn { work : db; in_transaction : bool }.

(** Code that runs on a connection: it returns or raises, and leaves a
    connection and a world behind. *)
Definition conn_state : Type := (connection * world)%type.
Definition io (A : Type) : Type := conn_state -> (str + A) * conn_state.

Definition ret (A : Type) (a : A) : io A := fun s => (inr a, s).
Definition bind (A B : Type) (m : io A) (k : A -> io B) : io B :=
  fun s => match m s with
           | (inr a, s') => k a s'
           | (inl e, s') => (inl e, s')
           end.

(** [try: body / except Exception as e: handler(e)] *)
Definition try_except (A : Type) (body : io A) (handler : str -> io A)
  : io A :=
  fun s => match body s with
           | (inl e, s') => handler e s'
           | r => r
           end.

(** [try: body / finally: cleanup] (the clean-up code here, a call of
    [conn.close()], is taken not to raise) *)
Definition try_finally (A : Type) (body : io A) (cleanup : io unit) : io A :=
  fun s => let (r, s') := body s in (r, snd (cleanup s')).

(** A call that raises [error] when there is one, and goes on as [m]
    otherwise. *)
Definition raise_or (A : Type) (error : option str) (m : io A) : io A :=
  fun s => match error with Some e => (inl e, s) | None => m s end.

(** [sqlite3.connect(DB_PATH)] and [conn.cursor()], when they succeed.  A
    new connection has no transaction open. *)
Definition sqlite3_connect (w : world) : conn_state :=
  (mkConn (disk w) false, mkWorld (disk w) (S (open_handles w))).

(** [cur.execute("BEGIN")] opens a transaction. *)
Definition execute_begin : io unit :=
  fun '(c, w) => (inr tt, (mkConn (work c) true, w)).

(** Where the contents that a statement leaves behind go: they stay with
    the connection when a transaction is open, and are written to the
    file otherwise.  (Without the [BEGIN] of the code the [sqlite3] module
    would open a transaction of its own in front of a statement whose
    first word is [INSERT], [UPDATE], [DELETE] or [REPLACE], and in front
    of no other.) *)
Definition after_statement (c : connection) (work' : db) (w : world)
  : conn_state :=
  if in_transaction c then (mkConn work' true, w)
  else (mkConn work' false, mkWorld work' (open_handles w)).

(** [cur.execute(q)], [cur.fetchall()] and [cur.description] *)
Definition execute_fetch (q : str) : io (list row * option (list str)) :=
  fun '(c, w) =>
    match sqlite_execute (work c) q with
    | StmtRaises e work' => (inl e, after_statement c work' w)
    | StmtDone work' rows d => (inr (rows, d), after_statement c work' w)
    end.

(** [conn.commit()] writes the open transaction to the file and ends it;
    without one there is nothing to write. *)
Definition conn_commit : io unit :=
  fun '(c, w) =>
    if in_transaction c then
      match sqlite_commit_error (work c) with
      | Some e => (inl e, (c, w))
      | None =>
          (inr tt, (mkConn (work c) false, mkWorld (work c) (open_handles w)))
      end
    else (inr tt, (c, w)).

(** [conn.rollback()] drops the open transaction, so that the connection
    sees the file again; without one it does nothing. *)
Definition conn_rollback : io unit :=
  fun '(c, w) =>
    if in_transaction c then (inr tt, (mkConn (disk w) false, w))
    else (inr tt, (c, w)).

(** [conn.close()]: a transaction that is still open is lost with the
    connection. *)
Definition conn_close : io unit :=
  fun '(c, w) => (inr tt, (c, mkWorld (disk w) (pred (open_handles w)))).

(** Lines 112-121: the [try] block and its [except] handler.  An
    exception of [conn.rollback()] is raised inside the handler and
    leaves the [try] statement. *)
Definition transaction_body_in (env : environment) (q : str)
  : io query_result :=
  try_except
    (bind (raise_or (begin_error env) execute_begin) (fun _ =>
     bind (execute_fetch q) (fun '(rows, description) =>
     let col_names :=
       match description with Some d => d | None => [] end in
     bind conn_commit (fun _ =>
     ret (RowsDict rows col_names)))))
    (fun e =>
     bind (raise_or (rollback_error env) conn_rollback) (fun _ =>
     ret (ErrorDict e))).

(** How a call ends: it returns a dictionary, or an exception leaves
    it. *)
Inductive outcome : Type :=
| Returns (r : query_result)
| Raises (message : str).

(** Lines 110-123.  An exception of [sqlite3.connect] leaves the function
    before there is a connection; one that leaves the [try] statement does
    so after the [finally] clause has closed the connection. *)
Definition run_in_transaction_in (env : environment) (q : str) (w : world)
  : outcome * world :=
  match connect_error env with
  | Some e => (Raises e, w)
  | None =>
      match try_finally (transaction_body_in env q) conn_close
                        (sqlite3_connect w) with
      | (inr r, (_, w')) => (Returns r, w')
      | (inl e, (_, w')) => (Raises e, w')
      end
  end.

(** The same lines where [sqlite3.connect], [BEGIN] and [conn.rollback()]
    succeed.  The handler then returns, so nothing is raised (lemma
    [run_in_transaction_cases]); the second branch is there for totality
    only. *)
Definition transaction_body (q : str) : io query_result :=
  transaction_body_in no_failure q.

Definition run_in_transaction (q : str) (w : world) : query_result * world :=
  match run_in_transaction_in no_failure q w with
  | (Returns r, w') => (r, w')
  | (Raises e, w') => (ErrorDict e, w')
  end.

(** [secure_run_query] and [run_query] are modelled where the three calls
    of [environment] succeed; [run_in_transaction_in] says what lines
    110-123 do when they do not. *)

Definition secure_run_query (sql : str) (role_allowed_tables : list str)
           (max_rows : Z) (w : world) : query_result * world :=
  if negb (_is_safe_statement sql) then (ErrorDict unsafe_message, w)
  else
    let q := capped_statement sql max_rows in
    let tables := _extract_table_names sql in
    match first_unauthorized tables role_allowed_tables with
    | Some t => (UnauthorizedDict (unauthorized_message t) t, w)
    | None => run_in_transaction q w
    end.

Definition run_query (query : str) (max_rows : Z) (w : world)
  : query_result * world :=
  let allowed := map lit ["meter_table"; "customer_table"; "revenue_data"]%string in
  secure_run_query query allowed max_rows w.

Definition rows_of (r : query_result) : option (list row) :=
  match r with RowsDict rows _ => Some rows | _ => None end.

End Executor.

Arguments StmtRaises {db row} message work'.
Arguments StmtDone {db row} work' rows description.
Arguments ErrorDict {row} error.
Arguments UnauthorizedDict {row} error unauthorized_table.
Arguments RowsDict {row} rows columns.
Arguments Returns {row} r.
Arguments Raises {row} message.

End Db.

Import Db.

(** ** [security.py] *)

Module Security.

(** *** Role policy ([allowed_tables_for_role]) *)

Definition ROLE_TABLES : list (str * list str) :=
  [ (lit "admin", map lit ["meter_table"; "customer_table"; "revenue_data"]%string);
    (lit "planner", map lit ["meter_table"; "customer_table"]%string) ].

(** [d.get(k, default)] *)
Fixpoint dict_get (V : Type) (d : list (str * V)) (k : str) (default : V) : V :=
  match d with
  | [] => default
  | (k', v) :: rest => if PyStr.eqb k' k then v else dict_get rest k default
  end.

Definition dict_keys (V : Type) (d : list (str * V)) : list str :=
  map fst d.

(** [role] may be [None]: [(role or "")]. *)
Definition allowed_tables_for_role (role : option str) : list str :=
  let role := lower (match role with Some r => r | None => [] end) in
  dict_get ROLE_TABLES role [].

End Security.

Import Security.

(** ** [chatbot_pipeline.py] *)

Module ChatbotPipeline.

(** *** Result shaper, chart mode ([render_graph_png]) *)

(** [l[i]] for a Python index, negative ones counting from the end;
    [None] stands for [IndexError]. *)
Definition py_index (A : Type) (l : list A) (i : Z) : option A :=
  let n := Z.of_nat (List.length l) in
  if (0 <=? i)%Z then nth_error l (Z.to_nat i)
  else if (0 <=? n + i)%Z then nth_error l (Z.to_nat (n + i))
  else None.

(** [l[::step]] for [step >= 1]: the elements at 0, step, 2*step, ...
    [skip] counts the elements still to pass over before the next one
    that is kept. *)
Fixpoint slice_from (A : Type) (step skip : nat) (l : list A) : list A :=
  match l with
  | [] => []
  | x :: r =>
      match skip with
      | O => x :: slice_from step (step - 1) r
      | S k => slice_from step k r
      end
  end.

Definition slice_step (A : Type) (step : nat) (l : list A) : list A :=
  slice_from step 0 l.

Definition MAX_POINTS : nat := 200.

(** Lines 110-114, on the two parallel lists. *)
Definition downsample (A B : Type) (dates : list A) (values : list B)
  : list A * list B :=
  if MAX_POINTS <? List.length dates then
    let step := List.length dates / MAX_POINTS in
    (slice_step step dates, slice_step step values)
  else (dates, values).

(** Lines 80-91: the two column indices. *)
Fixpoint detect_columns (columns : list str) (i : Z)
         (datetime_idx value_idx : option Z) : option Z * option Z :=
  match columns with
  | [] => (datetime_idx, value_idx)
  | col :: rest =>
      let c := lower col in
      let datetime_idx :=
        match datetime_idx with
        | None => if contains (lit "date") c || contains (lit "time") c
                  then Some i else None
        | Some _ => datetime_idx
        end in
      let value_idx :=
        match value_idx with
        | None => if existsb (fun x => contains x c)
                             (map lit ["load"; "mw"; "kwh"; "revenue"]%string)
                  then Some i else None
        | Some _ => value_idx
        end in
      detect_columns rest (i + 1)%Z datetime_idx value_idx
  end.

Definition column_indices (columns : list str) : Z * Z :=
  let (d, v) := detect_columns columns 0%Z None None in
  (match d with Some i => i | None => 0%Z end,
   match v with Some i => i | None => (Z.of_nat (List.length columns) - 1)%Z end).

Section Shaper.

(** A cell of a row, a [datetime] and a [float]. *)
Variable cell : Type.
Variable datetime : Type.
Variable float : Type.

(** [str(val)], [float(val)] ([None] when it raises) and
    [datetime.strptime(s, fmt)] ([None] when it raises). *)
Variable py_str : cell -> str.
Variable py_float : cell -> option float.
Variable strptime : str -> str -> option datetime.

(** Lines 117-133: the plot of the two lists with its y label, as the
    base64 text of the PNG. *)
Variable plot_png : list datetime -> list float -> str -> str.

Definition formats : list str :=
  map lit ["%Y-%m-%d %H:%M:%S"; "%Y-%m-%d %H:%M"; "%Y-%m-%d"; "%Y-%m"]%string.

Fixpoint try_formats (fmts : list str) (s : str) : option datetime :=
  match fmts with
  | [] => None
  | fmt :: rest =>
      match strptime s fmt with
      | Some d => Some d
      | None => try_formats rest s
      end
  end.

Definition parse_datetime_safe (val : cell) : option datetime :=
  let s := py_str val in
  match try_formats formats s with
  | Some d => Some d
  | None =>
      (* weekly buckets: YYYY-Wxx *)
      match strptime (s ++ lit "-1") (lit "%Y-W%W-%w") with
      | Some d => Some d
      | None => None
      end
  end.

(** The body of the loop of lines 95-104 for one row: the point it
    appends, or [None] when the row is passed over ([continue]). *)
Definition row_point (datetime_idx value_idx : Z) (r : list cell)
  : option (datetime * float) :=
  match py_index r datetime_idx with
  | None => None
  | Some dcell =>
      match parse_datetime_safe dcell with
      | None => None
      | Some dt =>
          match py_index r value_idx with
          | None => None
          | Some vcell =>
              match py_float vcell with
              | None => None
              | Some val => Some (dt, val)
              end
          end
      end
  end.

(** Lines 93-104: [dates] and [values] after the loop. *)
Fixpoint collect_points (datetime_idx value_idx : Z) (rows : list (list cell))
  : list datetime * list float :=
  match rows with
  | [] => ([], [])
  | r :: rest =>
      let (dates, values) := collect_points datetime_idx value_idx rest in
      match row_point datetime_idx value_idx r with
      | Some (dt, val) => (dt :: dates, val :: values)
      | None => (dates, values)
      end
  end.

(** [None], the image, or the [IndexError] of [columns[value_idx]]. *)
Inductive render_result : Type :=
| RenderNone
| RenderImage (png : str)
| RenderIndexError.

Definition render_graph_png (rows : list (list cell)) (columns : list str)
  : render_result :=
  match rows with
  | [] => RenderNone
  | _ :: _ =>
      let (datetime_idx, value_idx) := column_indices columns in
      let (dates, values) := collect_points datetime_idx value_idx rows in
      match dates, values with
      | [], _ | _, [] => RenderNone
      | _ :: _, _ :: _ =>
          let (dates, values) := downsample dates values in
          match py_index columns value_idx with
          | None => RenderIndexError
          | Some ylabel => RenderImage (plot_png dates values ylabel)
          end
      end
  end.

End Shaper.

(** *** Greeting and intent ([is_greeting], [classify_intent]) *)

Definition greetings : list str :=
  map lit ["hi"; "hello"; "hey"; "good morning"; "good evening"]%string.

Definition is_greeting (q : str) : bool :=
  let q := strip (lower q) in
  existsb (fun g => PyStr.eqb q g || startswith (g ++ lit " ") q) greetings.

Definition classify_intent (q : str) : str :=
  let ql := lower q in
  if existsb (fun w => contains w ql)
             (map lit ["forecast"; "predict"; "projection"; "future"]%string)
  then lit "python_model"
  else lit "nl2sql".

End ChatbotPipeline.

Import ChatbotPipeline.

(** ** [auth.py] *)

Module Auth.

Record user_record : Type := mkUser { password : str; role : str }.

Definition USERS : list (str * user_record) :=
  [ (lit "admin", mkUser (lit "admin123") (lit "admin"));
    (lit "planner", mkUser (lit "planner123") (lit "planner")) ].

(** [d.get(k)] *)
Fixpoint dict_lookup (V : Type) (d : list (str * V)) (k : str) : option V :=
  match d with
  | [] => None
  | (k', v) :: rest => if PyStr.eqb k' k then Some v else dict_lookup rest k
  end.

(** The dictionary returned holds the user name and the role. *)
Definition authenticate_user (username pass : str) : option (str * str) :=
  match dict_lookup USERS username with
  | None => None
  | Some user =>
      if negb (PyStr.eqb (password user) pass) then None
      else Some (username, role user)
  end.

End Auth.

(** ** [chatbot_pipeline.py] of the [with_copilot_12-30] iteration *)

Module Pipeline.

Definition greetings : list str :=
  map lit ["hi"; "hello"; "hey"; "good morning"; "good afternoon";
           "good evening"; "are you there"; "available"]%string.

Definition is_greeting (text : str) : bool :=
  let q := lower (strip text) in
  existsb (fun g => PyStr.eqb q g
                    || startswith (g ++ lit " ") q
                    || endswith (lit " " ++ g) q)
          greetings.

Definition forecast_keywords : list str :=
  map lit ["forecast"; "predict"; "projection"; "future"; "will be";
           "predict revenue"; "forecast revenue"]%string.

Definition classify_intent (question : str) : str :=
  let q := lower question in
  if existsb (fun kw => contains kw q) forecast_keywords
  then lit "python_model"
  else lit "nl2sql".

Definition graph_words : list str :=
  map lit ["plot"; "graph"; "chart"; "trend"; "over time"; "time series"]%string.

Definition nl_words : list str :=
  map lit ["summary"; "summarize"; "explain"; "what is"; "how many";
           "average"; "max"; "min"]%string.

Definition decide_output_type (question : str) : str :=
  let q := lower question in
  if existsb (fun w => contains w q) graph_words then lit "graph"
  else if existsb (fun w => contains w q) nl_words then lit "nl"
  else lit "table".

(** [f"{x}"] for a value that is a text or [None]. *)
Definition format_opt (x : option str) : str :=
  match x with Some s => s | None => lit "None" end.

(** The truth value of a text or [None]. *)
Definition truthy (x : option str) : bool :=
  match x with Some (_ :: _) => true | _ => false end.

Definition precheck_skipped : list str :=
  map lit [""; "select"; "from"; "where"; "join"; "on"]%string.

(** Lines 53-57: the table the loop returns on, if any. *)
Fixpoint first_forbidden_table (tables allowed : list str) : option str :=
  match tables with
  | [] => None
  | t :: rest =>
      if mem t precheck_skipped then first_forbidden_table rest allowed
      else if negb (mem t allowed) then Some t
      else first_forbidden_table rest allowed
  end.

Definition forbidden_message (role : option str) (table : option str) : str :=
  lit "forbidden: role '" ++ format_opt role
  ++ lit "' cannot access table '" ++ format_opt table ++ lit "'".

Section Handle.

Variables db row : Type.
Variable sqlite_execute : db -> str -> stmt_outcome db row.
Variable sqlite_commit_error : db -> option str.

(** The language model: the generated SQL ([None] or a text), and the
    summary of the rows. *)
Variable natural_to_sql : str -> str -> option str.
Variable summarize_results : str -> str -> list row -> str.

(** The two shapes of the dictionary [handle_nl2sql] returns. *)
Inductive response : Type :=
| ErrorResponse (error : str) (status_code : Z) (table : option str)
| ResultResponse (question intent generated_sql : str)
                 (result : list row) (columns : list str) (ncols : nat)
                 (output_type summary : str).

(** [res.get(key)] and [res.get(key, [])] on the dictionary of the
    executor. *)
Definition res_get_error (res : query_result row) : option str :=
  match res with
  | ErrorDict e => Some e
  | UnauthorizedDict e _ => Some e
  | RowsDict _ _ => None
  end.

Definition res_get_unauthorized_table (res : query_result row) : option str :=
  match res with UnauthorizedDict _ t => Some t | _ => None end.

Definition res_get_rows (res : query_result row) : list row :=
  match res with RowsDict rows _ => rows | _ => [] end.

Definition res_get_columns (res : query_result row) : list str :=
  match res with RowsDict _ columns => columns | _ => [] end.

Definition handle_nl2sql (question : str) (role : option str) (w : world db)
  : response * world db :=
  let sql := natural_to_sql question [] in
  match sql with
  | None | Some [] =>
      (ErrorResponse (lit "Could not convert question to SQL") 400 None, w)
  | Some sql =>
      if startswith (lit "--CANNOT_CONVERT--") sql then
        (ErrorResponse (lit "Could not convert question to SQL") 400 None, w)
      else if 1 <? count ";" sql then
        (ErrorResponse (lit "Multiple statements are not allowed") 400 None, w)
      else
        let tables := _extract_table_names sql in
        let allowed := allowed_tables_for_role role in
        match first_forbidden_table tables allowed with
        | Some t =>
            (ErrorResponse (forbidden_message role (Some t)) 403 (Some t), w)
        | None =>
            let (res, w') :=
              secure_run_query sqlite_execute sqlite_commit_error
                               sql allowed 200 w in
            if truthy (res_get_error res) then
              if startswith (lit "unauthorized_table_access")
                            (format_opt (res_get_error res))
                 || truthy (res_get_unauthorized_table res)
              then
                (ErrorResponse
                   (forbidden_message role (res_get_unauthorized_table res))
                   403 None, w')
              else
                (ErrorResponse (format_opt (res_get_error res)) 400 None, w')
            else
              let rows := res_get_rows res in
              let cols := res_get_columns res in
              (ResultResponse question (lit "nl2sql") sql rows cols
                              (List.length cols)
                              (decide_output_type question)
                              (summarize_results question sql rows), w')
        end
  end.

End Handle.

Arguments ErrorResponse {row} error status_code table.
Arguments ResultResponse {row} question intent generated_sql result columns
          ncols output_type summary.

End Pipeline.

(** ** [main.py] *)

Module Main.

(** What the JSON body holds under the key [question]: nothing or
    [null] (Python's [None]), a text, or a value of another type (a
    number, a boolean, a list or an object), of which the code can only
    see the truth value. *)
Inductive json_value : Type :=
| JNone
| JString (s : str)
| JOther (truth : bool).

(** The truth value that [not question] negates. *)
Definition json_truthy (v : json_value) : bool :=
  match v with
  | JNone => false
  | JString [] => false
  | JString (_ :: _) => true
  | JOther truth => truth
  end.

Section Endpoint.

Variables db row : Type.
Variable sqlite_execute : db -> str -> stmt_outcome db row.
Variable sqlite_commit_error : db -> option str.
Variable natural_to_sql : str -> str -> option str.
Variable summarize_results : str -> str -> list row -> str.

(** The body of the HTTP answer.  The texts of the greeting and of the
    simulated forecast are fixed; an answer of the pipeline is passed on
    without its status code.  [AttributeErrorRaised] stands for a call
    that raises instead of returning: the framework answers it with the
    status 500. *)
Inductive content : Type :=
| QuestionRequired
| GreetingReply (question : str)
| SimulatedForecast (question : str)
| PipelineReply (res : Pipeline.response row)
| AttributeErrorRaised.

(** The status code and the body.  [question] is [body.get('question')],
    which may be any JSON value, and [role] is the role claim of the
    token, a text or [None].  A question that is true and not a text gets
    as far as [is_greeting], whose [text.strip()] raises
    [AttributeError]. *)
Definition chat_endpoint (question : json_value) (role : option str)
           (w : world db) : (Z * content) * world db :=
  if negb (json_truthy question) then ((422%Z, QuestionRequired), w)
  else
  match question with
  | JNone | JOther _ => ((500%Z, AttributeErrorRaised), w)
  | JString question =>
      if Pipeline.is_greeting question then
        ((200%Z, GreetingReply question), w)
      else if PyStr.eqb (Pipeline.classify_intent question) (lit "python_model")
      then ((200%Z, SimulatedForecast question), w)
      else
        let (res, w') :=
          Pipeline.handle_nl2sql sqlite_execute sqlite_commit_error
                                 natural_to_sql summarize_results
                                 question role w in
        let status_code :=
          match res with
          | Pipeline.ErrorResponse _ status_code _ => status_code
          | Pipeline.ResultResponse _ _ _ _ _ _ _ _ => 200%Z
          end in
        ((status_code, PipelineReply res), w')
  end.

End Endpoint.

Arguments QuestionRequired {row}.
Arguments GreetingReply {row} question.
Arguments SimulatedForecast {row} question.
Arguments PipelineReply {row} res.
Arguments AttributeErrorRaised {row}.

End Main.

(** ** A small engine and a small calendar, for the examples *)

Module Demo.

(** One table of numbered rows.  The engine knows the row cap it is asked
    for ([LIMIT 2]) and one failing statement, which leaves a half-written
    working state behind. *)
Definition db : Type := list nat.

Definition execute (d : db) (q : str) : stmt_outcome db nat :=
  if contains (lit "no_such_column") (lower q)
  then StmtRaises (lit "no such column: no_such_column") (0 :: d)
  else if endswith (lit " LIMIT 2;") q
  then StmtDone d (firstn 2 d) (Some [lit "id"])
  else StmtDone d d (Some [lit "id"]).

Definition commit_error (d : db) : option str := None.

Definition world0 : world db := mkWorld [1; 2; 3] 0.

Definition run (sql : str) (allowed : list str) (max_rows : Z) :=
  secure_run_query execute commit_error sql allowed max_rows world0.

(** Cells are texts, dates are day numbers, values are naturals. *)
Definition strptime (s fmt : str) : option nat :=
  if PyStr.eqb fmt (lit "%Y-%m-%d") then
    if PyStr.eqb s (lit "2024-01-01") then Some 1
    else if PyStr.eqb s (lit "2024-01-02") then Some 2
    else None
  else None.

Definition to_float (s : str) : option nat :=
  if PyStr.eqb s (lit "10") then Some 10
  else if PyStr.eqb s (lit "12") then Some 12
  else None.

Definition plot (dates values : list nat) (ylabel : str) : str :=
  lit "png:" ++ ylabel.

Definition render (rows : list (list str)) (columns : list str) :=
  render_graph_png (fun s : str => s) to_float strptime plot rows columns.

(** A calendar that also knows a month, as [datetime.strptime] does:
    [2024-01] under the format of year and month. *)
Definition strptime_month (s fmt : str) : option nat :=
  if PyStr.eqb fmt (lit "%Y-%m") && PyStr.eqb s (lit "2024-01") then Some 1
  else strptime s fmt.

Definition render_month (rows : list (list str)) (columns : list str) :=
  render_graph_png (fun s : str => s) to_float strptime_month plot
                   rows columns.

(** Statements and roles of the examples. *)
Definition tab : ascii := "009"%char.
Definition double_quote : ascii := "034"%char.

Definition drop_with_tab : str :=
  lit "DROP" ++ [tab] ++ lit "TABLE meter_table".

Definition stacked : str :=
  lit "SELECT id FROM meter_table; DROP TABLE meter_table;".

Definition stacked_revenue : str :=
  lit "SELECT * FROM revenue_data; DROP TABLE meter_table;".

Definition select_revenue : str := lit "SELECT * FROM revenue_data;".


Definition select_meters : str := lit "  SELECT * FROM meter_table;  ".

Definition select_limit_literal : str :=
  lit "SELECT * FROM meter_table WHERE meter_id <> ' limit '".

Definition select_two_tables : str :=
  lit "SELECT * FROM revenue_data r JOIN meter_table m ON r.id = m.id".

Definition failing_select : str :=
  lit "SELECT no_such_column FROM meter_table".

(** A series of 401 points, one a day, and rows for the chart. *)
Definition days401 : list nat := seq 0 401.
Definition loads401 : list nat := map (fun d => 10 * d) (seq 0 401).

Definition chart_columns : list str := [lit "datetime"; lit "load_kwh"].
Definition good_row_1 : list str := [lit "2024-01-01"; lit "10"].
Definition good_row_2 : list str := [lit "2024-01-02"; lit "12"].
Definition bad_row : list str := [lit "next tuesday"; lit "12"].
Definition month_row : list str := [lit "2024-01"; lit "10"].

(** Characters above U+007F: the no-break space and a small e with an
    acute accent, and statements that hold them. *)
Definition no_break_space : ascii := "160"%char.
Definition e_acute : ascii := "233"%char.

Definition select_after_no_break_space : str :=
  lit "SELECT * FROM" ++ [no_break_space] ++ lit "secret".

Definition select_accented_neighbours : str :=
  lit "select * from t" ++ [e_acute] ++ lit " where " ++ [e_acute]
  ++ lit "meter_table = 1".

Definition select_accent_after_table : str :=
  lit "select * from meter_table" ++ [e_acute].

(** A generator of SQL that knows three questions, a summarizer, and an
    engine whose exceptions carry no message. *)
Definition nl2sql (question schema : str) : option str :=
  if contains (lit "revenue") (lower question) then Some select_revenue
  else if contains (lit "meters") (lower question) then Some select_meters
  else if contains (lit "broken") (lower question) then Some failing_select
  else Some (lit "--CANNOT_CONVERT--").

Definition summarize (question sql : str) (rows : list nat) : str :=
  if Nat.eqb (List.length rows) 0 then lit "No results found."
  else lit "Some rows.".

Definition execute_silent (d : db) (q : str) : stmt_outcome db nat :=
  StmtRaises [] (0 :: d).

Definition handle (question : str) (role : option str) :=
  Pipeline.handle_nl2sql execute commit_error nl2sql summarize
                         question role world0.

Definition chat (question : Main.json_value) (role : option str) :=
  Main.chat_endpoint execute commit_error nl2sql summarize
                     question role world0.

Definition forecast_question : str := lit "Predict the load of next week".

Definition sentinel_with_reason : str :=
  lit "--CANNOT_CONVERT-- (timeout)".

Definition select_upper : str := lit "SELECT * FROM METER_TABLE".
Definition select_lower : str := lit "select * from meter_table".

Definition nested_quoted : str :=
  lit "SELECT id FROM meter_table WHERE id IN (SELECT 1 FROM "
  ++ [double_quote] ++ lit "REVENUE_DATA" ++ [double_quote] ++ lit ")".

Definition admin_tables : list str :=
  allowed_tables_for_role (Some (lit "admin")).
Definition planner_tables : list str :=
  allowed_tables_for_role (Some (lit "planner")).

End Demo.

(* ================================================================== *)
(** * Part II: specification predicates                                *)
(* ================================================================== *)

(** [f] occurs in [s], letter case aside. *)
Definition occurs_ci (f s : str) : Prop :=
  exists pre w post, s = pre ++ w ++ post /\ lower w = lower f.

(** [k] occurs in [s] as a whole word, letter case aside: the characters
    next to the occurrence, if any, are not word characters (letters,
    digits or the underscore, those above U+007F included). *)
Definition whole_word_in (k s : str) : Prop :=
  exists pre w post,
    s = pre ++ w ++ post /\ lower w = lower k /\
    Regex.is_word_opt (Regex.last_error pre) = false /\
    Regex.is_word_opt (hd_error post) = false.

Definition is_lowercase (t : str) : Prop := lower t = t.

(** The character, if there is one, is an ASCII letter, a digit or the
    underscore: it could go on an identifier. *)
Definition is_ident_char_opt (c : option ascii) : bool :=
  match c with Some c => is_word c | None => false end.

(** [g] stands in [s] after the word [from] or [join] (in any letter case)
    and some white space, is an ASCII identifier, and is followed by no
    further character of an identifier; the keyword is preceded by no
    word character. *)
Definition follows_keyword (g s : str) : Prop :=
  exists pre kw ws post,
    s = pre ++ kw ++ ws ++ g ++ post /\
    (lower kw = lit "from" \/ lower kw = lit "join") /\
    ws <> [] /\ Forall (fun c => is_space c = true) ws /\
    (exists c r, g = c :: r /\ is_ident_start c = true /\
                 Forall (fun c => is_word c = true) r) /\
    Regex.is_word_opt (Regex.last_error pre) = false /\
    is_ident_char_opt (hd_error post) = false.

(** Every character of the text is an ASCII character. *)
Definition is_ascii (s : str) : bool := forallb (fun c => code c <? 128) s.

(** One of the words of [ws] occurs in [q], letter case aside. *)
Definition some_word_occurs (ws : list str) (q : str) : Prop :=
  exists w, In w ws /\ occurs_ci w q.

(** The tests of [render_graph_png] on a column name. *)
Definition has_date_name (col : str) : bool :=
  contains (lit "date") (lower col) || contains (lit "time") (lower col).

Definition has_value_name (col : str) : bool :=
  existsb (fun x => contains x (lower col))
          (map lit ["load"; "mw"; "kwh"; "revenue"]%string).

(** The index, counted from [i], of the first element that satisfies
    [p]. *)
Fixpoint first_index (p : str -> bool) (l : list str) (i : Z) : option Z :=
  match l with
  | [] => None
  | c :: r => if p c then Some i else first_index p r (i + 1)%Z
  end.

(** The text has no white space at either end. *)
Definition is_space_opt (c : option ascii) : bool :=
  match c with Some c => is_space c | None => false end.

Definition no_edge_space (s : str) : Prop :=
  is_space_opt (hd_error s) = false /\
  is_space_opt (Regex.last_error s) = false.

(** A non-empty text of letters, digits and underscores. *)
Definition is_identifier (t : str) : Prop :=
  t <> [] /\ Forall (fun c => is_word c = true) t.

(** The text [s] is refused by [strptime] under each of the formats that
    [parse_datetime_safe] tries: the four of its list (timestamp with
    seconds, timestamp without, date, year and month) and the year-week
    format applied to [s] followed by [-1]. *)
Definition fails_every_format (datetime : Type)
           (strptime : str -> str -> option datetime) (s : str) : Prop :=
  (forall fmt, In fmt formats -> strptime s fmt = None) /\
  strptime (s ++ lit "-1") (lit "%Y-W%W-%w") = None.

(** The text [s] is refused under the three formats that the
    specification names: the ISO timestamp, the ISO date and the
    year-week bucket. *)
Definition fails_named_formats (datetime : Type)
           (strptime : str -> str -> option datetime) (s : str) : Prop :=
  strptime s (lit "%Y-%m-%d %H:%M:%S") = None /\
  strptime s (lit "%Y-%m-%d") = None /\
  strptime (s ++ lit "-1") (lit "%Y-W%W-%w") = None.


(** [(n + step - 1) / step]: the ceiling of [n / step]. *)
Definition ceil_div (n step : nat) : nat := (n + step - 1) / step.

(* ================================================================== *)
(** * Part III: properties                                             *)
(* ================================================================== *)

(** ** Characters and strings *)

Ltac each_char c :=
  destruct c as [[] [] [] [] [] [] [] []]; try reflexivity; try discriminate.

Lemma lower_char_idem (c : ascii) : lower_char (lower_char c) = lower_char c.
Proof. each_char c. Qed.

Lemma is_word_lower_char (c : ascii) : is_word (lower_char c) = is_word c.
Proof. each_char c. Qed.

Lemma is_unicode_word_lower_char (c : ascii) :
  is_unicode_word (lower_char c) = is_unicode_word c.
Proof. each_char c. Qed.

(** The classes the patterns write out lie inside [\w]. *)
Lemma is_word_unicode_word (c : ascii) :
  is_word c = true -> is_unicode_word c = true.
Proof. unfold is_unicode_word. intros ->. reflexivity. Qed.

Lemma lower_idem (s : str) : lower (lower s) = lower s.
Proof.
  unfold lower. rewrite map_map. apply map_ext. intro c. apply lower_char_idem.
Qed.

Lemma lower_app (a b : str) : lower (a ++ b) = lower a ++ lower b.
Proof. apply map_app. Qed.

Lemma lower_length (s : str) : List.length (lower s) = List.length s.
Proof. apply length_map. Qed.

Lemma eqb_char_true (a b : ascii) : eqb_char a b = true <-> a = b.
Proof. apply Ascii.eqb_eq. Qed.

Lemma eqb_char_refl (a : ascii) : eqb_char a a = true.
Proof. apply Ascii.eqb_refl. Qed.

Lemma str_eqb_true (a b : str) : PyStr.eqb a b = true <-> a = b.
Proof.
  revert b. induction a as [|x a IH]; intros [|y b]; simpl; split;
    try congruence; try discriminate; auto.
  - rewrite andb_true_iff, eqb_char_true, IH. intros [-> ->]. reflexivity.
  - intros H. injection H as -> ->.
    rewrite eqb_char_refl. simpl. apply IH. reflexivity.
Qed.

Lemma str_eqb_refl (a : str) : PyStr.eqb a a = true.
Proof. apply str_eqb_true. reflexivity. Qed.

Lemma mem_In (t : str) (l : list str) : mem t l = true <-> In t l.
Proof.
  unfold mem. rewrite existsb_exists. split.
  - intros [x [Hx Heq]]. apply str_eqb_true in Heq. subst. exact Hx.
  - intros H. exists t. split; [exact H | apply str_eqb_refl].
Qed.

Lemma mem_false_not_In (t : str) (l : list str) :
  mem t l = false <-> ~ In t l.
Proof.
  rewrite <- mem_In. destruct (mem t l); split; intros; congruence.
Qed.

Lemma startswith_app (p r : str) : startswith p (p ++ r) = true.
Proof.
  induction p as [|x p IH]; simpl; [reflexivity|].
  rewrite eqb_char_refl. exact IH.
Qed.

Lemma startswith_split (p s : str) :
  startswith p s = true -> exists r, s = p ++ r.
Proof.
  revert s. induction p as [|x p IH]; intros s H.
  - exists s. reflexivity.
  - destruct s as [|y s]; simpl in H; [discriminate|].
    apply andb_true_iff in H as [Hxy Hp].
    apply eqb_char_true in Hxy. subst y.
    destruct (IH _ Hp) as [r ->]. exists r. reflexivity.
Qed.

Lemma contains_app (needle pre post : str) :
  contains needle (pre ++ needle ++ post) = true.
Proof.
  induction pre as [|c pre IH]; simpl.
  - destruct (needle ++ post) eqn:E; simpl; rewrite <- E, startswith_app;
      reflexivity.
  - rewrite IH. apply orb_true_r.
Qed.

Lemma contains_split (needle hay : str) :
  contains needle hay = true -> exists pre post, hay = pre ++ needle ++ post.
Proof.
  induction hay as [|c hay IH]; simpl; intros H.
  - rewrite orb_false_r in H. apply startswith_split in H as [r ->].
    exists [], r. reflexivity.
  - apply orb_true_iff in H as [H|H].
    + apply startswith_split in H as [r ->]. exists [], r. reflexivity.
    + destruct (IH H) as [pre [post ->]]. exists (c :: pre), post. reflexivity.
Qed.

(** The test [f in low] of the validator is the occurrence of [f], letter
    case aside, for a lower-case [f]. *)
Lemma contains_lower_occurs (f s : str) :
  is_lowercase f -> (contains f (lower s) = true <-> occurs_ci f s).
Proof.
  intros Hf. split.
  - intros H. apply contains_split in H as [pre [post H]].
    unfold lower in H.
    apply map_eq_app in H as [pre' [rest [-> [Hpre Hrest]]]].
    apply map_eq_app in Hrest as [w [post' [-> [Hw Hpost]]]].
    exists pre', w, post'. split; [reflexivity|].
    fold (lower w) in Hw. rewrite Hw. symmetry. exact Hf.
  - intros [pre [w [post [-> Hw]]]].
    rewrite !lower_app, Hw, Hf. apply contains_app.
Qed.

(** ** Statement validator *)

Lemma scan_first_forbidden (fs : list str) (low : str) :
  scan_forbidden fs low =
  match first_forbidden fs low with Some _ => false | None => true end.
Proof.
  induction fs as [|f fs IH]; simpl; [reflexivity|].
  destruct (contains f low); [reflexivity | exact IH].
Qed.

(** [validate] only adds the reason to the answer of [_is_safe_statement]. *)
Lemma validate_agrees (sql : str) :
  _is_safe_statement sql = verdict_ok (validate sql).
Proof.
  unfold _is_safe_statement, validate.
  destruct (1 <? count ";" sql); [reflexivity|].
  rewrite scan_first_forbidden.
  destruct (first_forbidden forbidden (lower sql)); reflexivity.
Qed.

Lemma scan_forbidden_hit (fs : list str) (low f : str) :
  In f fs -> contains f low = true -> scan_forbidden fs low = false.
Proof.
  induction fs as [|g fs IH]; simpl; [tauto|].
  intros [->|Hin] Hc.
  - rewrite Hc. reflexivity.
  - destruct (contains g low); [reflexivity | auto].
Qed.

Lemma forbidden_lowercase : Forall is_lowercase forbidden.
Proof. repeat constructor. Qed.

(** What the denylist does reject: any text in which one of its entries
    occurs, as the entry is written in the list and letter case aside. *)
Lemma forbidden_entry_rejected (sql f : str) :
  In f forbidden -> occurs_ci f sql -> _is_safe_statement sql = false.
Proof.
  intros Hin Hocc. unfold _is_safe_statement.
  destruct (1 <? count ";" sql); [reflexivity|].
  apply scan_forbidden_hit with (f := f); [exact Hin|].
  apply contains_lower_occurs; [|exact Hocc].
  exact (proj1 (Forall_forall _ _) forbidden_lowercase f Hin).
Qed.

(** C2.  A text with more than one [;] is refused by the multi-statement
    test, which comes before the denylist: the verdict is
    [MultiStatementReject] whatever else the text contains, and
    [_is_safe_statement] answers [False]. *)
Theorem C2_multi_statement_rejected (sql : str) :
  1 < count ";" sql ->
  validate sql = MultiStatementReject /\ _is_safe_statement sql = false.
Proof.
  intros H. apply Nat.ltb_lt in H.
  unfold validate, _is_safe_statement. rewrite H. split; reflexivity.
Qed.

(** Scenario B of the specification: two statements, the second a [DROP];
    both rules apply and the multi-statement one answers. *)
Lemma C2_scenario_B :
  1 < count ";" Demo.stacked /\
  contains (lit "drop ") (lower Demo.stacked) = true /\
  validate Demo.stacked = MultiStatementReject /\
  _is_safe_statement Demo.stacked = false.
Proof.
  assert (H : 1 < count ";" Demo.stacked) by (vm_compute; lia).
  split; [exact H|]. split; [reflexivity|].
  exact (C2_multi_statement_rejected Demo.stacked H).
Defined.

(** C3.  The denylist holds [drop], [delete], [update], [insert], [alter],
    [attach] and [detach] with a space after the word.  The statement
    [DROP<TAB>TABLE meter_table] has no [;], no quote, and the keyword
    [drop] in it, yet it is accepted, and with the tables of [admin] the
    executor hands it to the engine unchanged. *)
Theorem C3_drop_followed_by_tab_is_accepted :
  count ";" Demo.drop_with_tab <= 1 /\
  count "'" Demo.drop_with_tab = 0 /\
  count Demo.double_quote Demo.drop_with_tab = 0 /\
  occurs_ci (lit "drop") Demo.drop_with_tab /\
  validate Demo.drop_with_tab = Accepted /\
  _is_safe_statement Demo.drop_with_tab = true /\
  Demo.run Demo.drop_with_tab Demo.admin_tables 200 =
  run_in_transaction Demo.execute Demo.commit_error Demo.drop_with_tab
                     Demo.world0.
Proof.
  split; [vm_compute; lia|]. split; [reflexivity|]. split; [reflexivity|].
  split.
  - exists [], (lit "DROP"), (Demo.tab :: lit "TABLE meter_table").
    split; reflexivity.
  - split; [reflexivity|]. split; reflexivity.
Qed.

(** ** Role policy *)

Lemma dict_get_absent (V : Type) (d : list (str * V)) (k : str) (default : V) :
  ~ In k (dict_keys d) -> dict_get d k default = default.
Proof.
  induction d as [|[k' v] d IH]; simpl; intros H; [reflexivity|].
  destruct (PyStr.eqb k' k) eqn:E.
  - apply str_eqb_true in E. tauto.
  - apply IH. tauto.
Qed.

(** C5 (amended).  The role is lower-cased before the look-up.  A role
    whose lower-cased text is not a key of the policy, [None] and the empty
    text included, gets no table.  [planner] in any letter case gets
    [meter_table] and [customer_table] and not [revenue_data]; [admin] in
    any letter case gets the three tables. *)
Theorem C5_deny_by_default_after_lowering :
  (forall role : option str,
      ~ In (lower (match role with Some r => r | None => [] end))
           (dict_keys ROLE_TABLES) ->
      allowed_tables_for_role role = []) /\
  allowed_tables_for_role None = [] /\
  allowed_tables_for_role (Some []) = [] /\
  (forall r, lower r = lit "planner" ->
             allowed_tables_for_role (Some r)
             = map lit ["meter_table"; "customer_table"]%string) /\
  ~ In (lit "revenue_data") Demo.planner_tables /\
  (forall r, lower r = lit "admin" ->
             allowed_tables_for_role (Some r)
             = map lit ["meter_table"; "customer_table"; "revenue_data"]%string).
Proof.
  split; [|split; [|split; [|split; [|split]]]].
  - intros role H. unfold allowed_tables_for_role.
    apply dict_get_absent. exact H.
  - reflexivity.
  - reflexivity.
  - intros r H. unfold allowed_tables_for_role. rewrite H. reflexivity.
  - apply mem_false_not_In. reflexivity.
  - intros r H. unfold allowed_tables_for_role. rewrite H. reflexivity.
Qed.

Lemma C5_unknown_role_witness :
  ~ In (lower (lit "Auditor")) (dict_keys ROLE_TABLES) /\
  allowed_tables_for_role (Some (lit "Auditor")) = [] /\
  allowed_tables_for_role (Some (lit "Planner"))
  = map lit ["meter_table"; "customer_table"]%string.
Proof.
  assert (H : ~ In (lower (lit "Auditor")) (dict_keys ROLE_TABLES))
    by (apply mem_false_not_In; reflexivity).
  split; [exact H|]. split.
  - exact (proj1 C5_deny_by_default_after_lowering (Some (lit "Auditor")) H).
  - exact (proj1 (proj2 (proj2 (proj2 C5_deny_by_default_after_lowering)))
                 (lit "Planner") eq_refl).
Defined.

(** C5 as stated fails: [ADMIN] is not a key of the policy, whose keys are
    lower-case, and it is given the three tables. *)
Lemma C5_uppercase_role_is_granted :
  ~ In (lit "ADMIN") (dict_keys ROLE_TABLES) /\
  allowed_tables_for_role (Some (lit "ADMIN"))
  = map lit ["meter_table"; "customer_table"; "revenue_data"]%string /\
  allowed_tables_for_role (Some (lit "ADMIN")) <> [].
Proof.
  split; [apply mem_false_not_In; reflexivity|].
  split; [reflexivity | discriminate].
Qed.

(** ** Sets of names and [sorted] *)

Lemma leb_total (a b : str) : PyStr.leb a b = false -> PyStr.leb b a = true.
Proof.
  revert b. induction a as [|x a IH]; intros [|y b]; simpl; try congruence.
  destruct (Nat.ltb_spec (code x) (code y)); [discriminate|].
  destruct (Nat.ltb_spec (code y) (code x)); [reflexivity|].
  apply IH.
Qed.

Lemma leb_trans (a b c : str) :
  PyStr.leb a b = true -> PyStr.leb b c = true -> PyStr.leb a c = true.
Proof.
  revert b c. induction a as [|x a IH]; intros [|y b] [|z c]; simpl;
    try congruence.
  destruct (Nat.ltb_spec (code x) (code y)),
           (Nat.ltb_spec (code y) (code z)),
           (Nat.ltb_spec (code x) (code z)),
           (Nat.ltb_spec (code y) (code x)),
           (Nat.ltb_spec (code z) (code y)),
           (Nat.ltb_spec (code z) (code x));
    try reflexivity; try discriminate; try lia.
  apply IH.
Qed.

Lemma In_insert_sorted (t x : str) (l : list str) :
  In x (insert_sorted t l) <-> x = t \/ In x l.
Proof.
  induction l as [|y l IH]; simpl.
  - intuition.
  - destruct (PyStr.leb t y); simpl; rewrite ?IH; intuition.
Qed.

Lemma In_sorted (x : str) (l : list str) : In x (sorted l) <-> In x l.
Proof.
  induction l as [|y l IH]; simpl; [tauto|].
  rewrite In_insert_sorted, IH. intuition.
Qed.

Lemma insert_sorted_sorted (t : str) (l : list str) :
  StronglySorted (fun a b => PyStr.leb a b = true) l ->
  StronglySorted (fun a b => PyStr.leb a b = true) (insert_sorted t l).
Proof.
  induction 1 as [|y l Hs IH Hall]; simpl.
  - repeat constructor.
  - destruct (PyStr.leb t y) eqn:E.
    + constructor; [constructor; assumption|].
      constructor; [exact E|].
      eapply Forall_impl; [|exact Hall].
      intros z Hz. exact (leb_trans _ _ _ E Hz).
    + constructor; [exact IH|].
      apply Forall_forall. intros z Hz.
      apply In_insert_sorted in Hz as [->|Hz].
      * apply leb_total. exact E.
      * exact (proj1 (Forall_forall _ _) Hall z Hz).
Qed.

Lemma sorted_sorted (l : list str) :
  StronglySorted (fun a b => PyStr.leb a b = true) (sorted l).
Proof.
  induction l as [|y l IH]; simpl; [constructor|].
  apply insert_sorted_sorted. exact IH.
Qed.

Lemma insert_sorted_NoDup (t : str) (l : list str) :
  ~ In t l -> NoDup l -> NoDup (insert_sorted t l).
Proof.
  induction l as [|y l IH]; simpl; intros Hn Hd.
  - constructor; [tauto | constructor].
  - destruct (PyStr.leb t y).
    + constructor; [simpl; tauto | exact Hd].
    + inversion Hd as [|? ? Hy Hd']; subst. constructor.
      * rewrite In_insert_sorted. intros [->|H]; tauto.
      * apply IH; tauto.
Qed.

Lemma sorted_NoDup (l : list str) : NoDup l -> NoDup (sorted l).
Proof.
  induction 1 as [|y l Hy Hd IH]; simpl; [constructor|].
  apply insert_sorted_NoDup; [rewrite In_sorted; exact Hy | exact IH].
Qed.

Lemma In_set_add (t x : str) (s : list str) :
  In x (set_add t s) <-> x = t \/ In x s.
Proof.
  unfold set_add. destruct (mem t s) eqn:E; simpl.
  - apply mem_In in E. split; [tauto|]. intros [->|H]; assumption.
  - intuition.
Qed.

Lemma set_add_NoDup (t : str) (s : list str) : NoDup s -> NoDup (set_add t s).
Proof.
  intros H. unfold set_add. destruct (mem t s) eqn:E; [exact H|].
  constructor; [apply mem_false_not_In; exact E | exact H].
Qed.

Lemma fold_left_invariant (X : Type) (P : list str -> Prop)
      (step : list str -> X -> list str) (xs : list X) (acc : list str) :
  (forall a x, P a -> P (step a x)) -> P acc -> P (fold_left step xs acc).
Proof.
  intros Hstep. revert acc.
  induction xs as [|x xs IH]; simpl; intros acc H; [exact H|].
  apply IH. apply Hstep. exact H.
Qed.

(** ** Table reference extractor *)

Lemma span_fst_Forall (p : ascii -> bool) (s : str) :
  Forall (fun c => p c = true) (fst (span p s)).
Proof.
  induction s as [|c s IH]; simpl; [constructor|].
  destruct (p c) eqn:E; [|constructor].
  destruct (span p s). simpl in *. constructor; assumption.
Qed.

Lemma is_ident_start_word (c : ascii) :
  is_ident_start c = true -> is_word c = true.
Proof. unfold is_word. intros ->. reflexivity. Qed.

Lemma match_from_join_identifier (prev : option ascii) (s g : str) (n : nat) :
  Regex.match_from_join prev s = Some (g, n) -> is_identifier g.
Proof.
  unfold Regex.match_from_join.
  destruct (_ && _); [|discriminate].
  destruct (span is_space (skipn 4 s)) as [ws rest].
  destruct ws as [|w ws]; [discriminate|].
  destruct rest as [|c r]; [discriminate|].
  destruct (is_ident_start c) eqn:Ec; [|discriminate].
  pose proof (span_fst_Forall is_word r) as Htail.
  destruct (span is_word r) as [tail rest']. simpl in Htail.
  intros H. injection H as <- _. split; [discriminate|].
  constructor; [apply is_ident_start_word; exact Ec | exact Htail].
Qed.

Lemma finditer_identifiers (s : str) (prev : option ascii) (skip : nat) :
  Forall is_identifier (Regex.finditer_from_join prev skip s).
Proof.
  revert prev skip. induction s as [|c s IH]; intros prev skip; simpl.
  - constructor.
  - destruct skip as [|k]; [|apply IH].
    destruct (Regex.match_from_join prev (c :: s)) as [[g n]|] eqn:E; [|apply IH].
    constructor; [|apply IH].
    eapply match_from_join_identifier. exact E.
Qed.

Lemma lower_identifier (g : str) : is_identifier g -> is_identifier (lower g).
Proof.
  intros [Hne Hall]. split.
  - destruct g; [congruence | discriminate].
  - unfold lower. apply Forall_map.
    eapply Forall_impl; [|exact Hall].
    intros c Hc. rewrite is_word_lower_char. exact Hc.
Qed.

Lemma known_facts :
  Forall (fun k => is_identifier k /\ is_lowercase k /\
                   Regex.is_word_opt (hd_error k) = true /\
                   Regex.is_word_opt (Regex.last_error k) = true) known.
Proof.
  repeat constructor; discriminate.
Qed.

(** Every name the extractor returns has a property that the groups of
    pass 1, once lower-cased, and the known names share. *)
Lemma extract_invariant (P : str -> Prop) (sql : str) :
  (forall g, is_identifier g -> P (lower g)) ->
  (forall k, In k known -> P k) ->
  Forall P (_extract_table_names sql).
Proof.
  intros Hg Hk. unfold _extract_table_names.
  apply Forall_forall. intros t Ht. apply -> In_sorted in Ht. revert t Ht.
  apply Forall_forall.
  assert (H1 : Forall P (fold_left (fun acc g => set_add (lower g) acc)
                                   (Regex.finditer_from_join None 0 sql) [])).
  { pose proof (finditer_identifiers sql None 0) as Hid.
    revert Hid. generalize (Regex.finditer_from_join None 0 sql).
    assert (Hnil : Forall P []) by constructor. revert Hnil.
    generalize (@nil str).
    intros acc Hacc gs. revert acc Hacc.
    induction gs as [|g gs IH]; simpl; intros acc Hacc Hid; [exact Hacc|].
    inversion Hid; subst. apply IH; [|assumption].
    apply Forall_forall. intros x Hx. apply In_set_add in Hx as [->|Hx].
    - apply Hg. assumption.
    - exact (proj1 (Forall_forall _ _) Hacc x Hx). }
  revert H1. generalize (fold_left (fun acc g => set_add (lower g) acc)
                                   (Regex.finditer_from_join None 0 sql) []).
  revert Hk. generalize known.
  intros ks. induction ks as [|k ks IH]; simpl; intros Hk acc Hacc;
    [exact Hacc|].
  apply IH; [intros; apply Hk; right; assumption|].
  destruct (Regex.search_word k None sql); [|exact Hacc].
  apply Forall_forall. intros x Hx. apply In_set_add in Hx as [->|Hx].
  - apply Hk. left. reflexivity.
  - exact (proj1 (Forall_forall _ _) Hacc x Hx).
Qed.

Lemma extract_NoDup (sql : str) : NoDup (_extract_table_names sql).
Proof.
  unfold _extract_table_names. apply sorted_NoDup.
  apply fold_left_invariant.
  - intros a k Ha. destruct (Regex.search_word k None sql);
      [apply set_add_NoDup|]; exact Ha.
  - apply fold_left_invariant; [|constructor].
    intros a g Ha. apply set_add_NoDup. exact Ha.
Qed.

Lemma extract_known (sql k : str) :
  In k known -> Regex.search_word k None sql = true ->
  In k (_extract_table_names sql).
Proof.
  intros Hin Hs. unfold _extract_table_names. apply In_sorted.
  generalize (fold_left (fun acc g => set_add (lower g) acc)
                        (Regex.finditer_from_join None 0 sql) []).
  revert Hin. generalize known.
  intros ks. induction ks as [|k' ks IH]; simpl; intros Hin acc; [tauto|].
  destruct Hin as [->|Hin]; [|apply IH; exact Hin].
  rewrite Hs.
  apply fold_left_invariant with (P := In k).
  - intros a x Ha. destruct (Regex.search_word x None sql); [|exact Ha].
    apply In_set_add. right. exact Ha.
  - apply In_set_add. left. reflexivity.
Qed.

Lemma last_error_cons (c : ascii) (s : str) :
  Regex.last_error (c :: s) =
  match Regex.last_error s with Some d => Some d | None => Some c end.
Proof.
  unfold Regex.last_error. simpl. destruct (rev s); reflexivity.
Qed.

Lemma is_word_opt_hd_lower (s : str) :
  Regex.is_word_opt (hd_error (lower s)) = Regex.is_word_opt (hd_error s).
Proof.
  destruct s as [|c s]; simpl;
    [reflexivity | apply is_unicode_word_lower_char].
Qed.

Lemma is_word_opt_last_lower (s : str) :
  Regex.is_word_opt (Regex.last_error (lower s))
  = Regex.is_word_opt (Regex.last_error s).
Proof.
  unfold Regex.last_error, lower. rewrite <- map_rev.
  destruct (rev s) as [|c r]; simpl;
    [reflexivity | apply is_unicode_word_lower_char].
Qed.

Lemma firstn_length_app (A : Type) (a b : list A) :
  firstn (List.length a) (a ++ b) = a.
Proof. induction a; simpl; congruence. Qed.

Lemma skipn_length_app (A : Type) (a b : list A) :
  skipn (List.length a) (a ++ b) = b.
Proof. induction a; simpl; congruence. Qed.

(** An occurrence of [k] between two non-word neighbours is a match of
    the pattern of pass 2 at that position. *)
Lemma match_word_at_occurrence (k w post : str) (prev : option ascii) :
  Regex.is_word_opt (hd_error k) = true ->
  Regex.is_word_opt (Regex.last_error k) = true ->
  lower w = lower k ->
  Regex.is_word_opt prev = false ->
  Regex.is_word_opt (hd_error post) = false ->
  Regex.match_word k prev (w ++ post) = true.
Proof.
  intros Hhd Hlast Hw Hprev Hpost.
  assert (Hlen : List.length k = List.length w).
  { rewrite <- (lower_length k), <- (lower_length w), Hw. reflexivity. }
  assert (Hw_hd : Regex.is_word_opt (hd_error w) = true).
  { rewrite <- is_word_opt_hd_lower, Hw, is_word_opt_hd_lower. exact Hhd. }
  assert (Hw_last : Regex.is_word_opt (Regex.last_error w) = true).
  { rewrite <- is_word_opt_last_lower, Hw, is_word_opt_last_lower.
    exact Hlast. }
  unfold Regex.match_word, Regex.word_boundary, Regex.ci_startswith.
  rewrite Hlen, firstn_length_app, skipn_length_app.
  rewrite Hprev, Hpost, Hw_last, lower_app, <- Hw, startswith_app.
  destruct w as [|c w]; simpl in *; [discriminate|].
  rewrite Hw_hd. reflexivity.
Qed.

Lemma search_word_after_prefix (k rest pre : str) (prev : option ascii) :
  Regex.match_word k
    (match Regex.last_error pre with Some c => Some c | None => prev end)
    rest = true ->
  Regex.search_word k prev (pre ++ rest) = true.
Proof.
  revert prev. induction pre as [|c pre IH]; intros prev H.
  - simpl in *. destruct rest; simpl; rewrite H; reflexivity.
  - simpl. rewrite IH; [apply orb_true_r|].
    rewrite last_error_cons in H.
    destruct (Regex.last_error pre); exact H.
Qed.

(** [re.search] of pass 2 finds every whole-word occurrence. *)
Lemma search_word_complete (k sql : str) :
  Regex.is_word_opt (hd_error k) = true ->
  Regex.is_word_opt (Regex.last_error k) = true ->
  whole_word_in k sql ->
  Regex.search_word k None sql = true.
Proof.
  intros Hhd Hlast [pre [w [post [-> [Hw [Hpre Hpost]]]]]].
  apply search_word_after_prefix.
  apply match_word_at_occurrence; try assumption.
  destruct (Regex.last_error pre); [exact Hpre | reflexivity].
Qed.

(** C4.  The extractor returns lower-case names without duplicates (in
    sorted order), and every known table name that occurs in the text as
    a whole word, letter case aside and wherever it stands, is among
    them.  A whole word has no letter, digit or underscore next to it,
    and the letters and digits above U+007F count as such, as they do for
    the word boundary of Python's patterns. *)
Theorem C4_extract_tables_lowercase_unique_and_covering (sql : str) :
  Forall is_lowercase (_extract_table_names sql) /\
  NoDup (_extract_table_names sql) /\
  StronglySorted (fun a b => PyStr.leb a b = true) (_extract_table_names sql) /\
  (forall k, In k known -> whole_word_in k sql ->
             In k (_extract_table_names sql)).
Proof.
  split; [|split; [|split]].
  - apply extract_invariant.
    + intros g _. apply lower_idem.
    + intros k Hk.
      exact (proj1 (proj2 (proj1 (Forall_forall _ _) known_facts k Hk))).
  - apply extract_NoDup.
  - apply sorted_sorted.
  - intros k Hk Hocc. apply extract_known; [exact Hk|].
    destruct (proj1 (Forall_forall _ _) known_facts k Hk) as [_ [_ [Hhd Hlast]]].
    apply search_word_complete; assumption.
Qed.

(** A quoted identifier inside a subquery, in capitals: pass 1 does not
    see it and pass 2 does. *)
Lemma C4_quoted_identifier_witness :
  In (lit "revenue_data") known /\
  whole_word_in (lit "revenue_data") Demo.nested_quoted /\
  In (lit "revenue_data") (_extract_table_names Demo.nested_quoted) /\
  _extract_table_names Demo.nested_quoted
  = map lit ["meter_table"; "revenue_data"]%string.
Proof.
  assert (Hk : In (lit "revenue_data") known) by (apply mem_In; reflexivity).
  assert (Hocc : whole_word_in (lit "revenue_data") Demo.nested_quoted).
  { exists (lit "SELECT id FROM meter_table WHERE id IN (SELECT 1 FROM "
            ++ [Demo.double_quote]),
           (lit "REVENUE_DATA"), ([Demo.double_quote] ++ lit ")").
    repeat split. }
  split; [exact Hk|]. split; [exact Hocc|]. split.
  - exact (proj2 (proj2 (proj2
             (C4_extract_tables_lowercase_unique_and_covering
                Demo.nested_quoted)))
             (lit "revenue_data") Hk Hocc).
  - reflexivity.
Defined.

(** White space above U+007F: a no-break space between [FROM] and a
    name is white space for the pattern of pass 1, and the name is
    returned. *)
Lemma name_after_no_break_space_is_extracted :
  _extract_table_names Demo.select_after_no_break_space = [lit "secret"].
Proof. reflexivity. Qed.

(** Word characters above U+007F: an accented letter ends the name that
    pass 1 takes after [from], and an accented letter in front of a known
    name makes the name part of a longer word, which pass 2 does not
    report. *)
Lemma accented_letters_are_word_characters :
  _extract_table_names Demo.select_accented_neighbours = [lit "t"] /\
  ~ whole_word_in (lit "meter_table") Demo.select_accented_neighbours.
Proof.
  split; [reflexivity|]. intros H.
  apply (@search_word_complete (lit "meter_table")
           Demo.select_accented_neighbours eq_refl eq_refl) in H.
  discriminate H.
Qed.

(** ** Bounded executor *)

Lemma leb_refl (a : str) : PyStr.leb a a = true.
Proof.
  induction a as [|x a IH]; simpl; [reflexivity|].
  rewrite Nat.ltb_irrefl. exact IH.
Qed.

Lemma word_is_no_quote (c : ascii) :
  is_word c = true ->
  eqb_char "'" c = false /\ eqb_char Demo.double_quote c = false.
Proof.
  destruct c as [[] [] [] [] [] [] [] []]; intros H; vm_compute in H;
    try discriminate H; split; reflexivity.
Qed.

Lemma identifier_not_function (t : str) :
  is_identifier t -> Regex.match_function_or_quote t = false.
Proof.
  intros [Hne Hall]. unfold Regex.match_function_or_quote.
  assert (Hspan : span is_word t = (t, [])).
  { clear Hne. induction Hall as [|c t Hc Hall IH]; simpl; [reflexivity|].
    rewrite Hc, IH. reflexivity. }
  rewrite Hspan.
  destruct t as [|c t]; [congruence|].
  inversion Hall as [|? ? Hc _]; subst.
  destruct (word_is_no_quote c Hc) as [E1 E2].
  change (startswith (lit "'") (c :: t)) with (eqb_char "'" c && true).
  change (startswith ["034"%char] (c :: t))
    with (eqb_char Demo.double_quote c && true).
  rewrite E1, E2. reflexivity.
Qed.

Lemma extract_identifiers (sql : str) :
  Forall is_identifier (_extract_table_names sql).
Proof.
  apply extract_invariant.
  - apply lower_identifier.
  - intros k Hk. exact (proj1 (proj1 (Forall_forall _ _) known_facts k Hk)).
Qed.

Lemma first_unauthorized_Some (tables allowed : list str) (t : str) :
  first_unauthorized tables allowed = Some t ->
  In t tables /\ mem t allowed = false /\ mem t skipped_tokens = false.
Proof.
  induction tables as [|x tables IH]; cbn [first_unauthorized];
    [discriminate|].
  destruct (mem x skipped_tokens) eqn:Es.
  { intros H. destruct (IH H) as [? [? ?]].
    split; [right; assumption | split; assumption]. }
  destruct (Regex.match_function_or_quote x).
  { intros H. destruct (IH H) as [? [? ?]].
    split; [right; assumption | split; assumption]. }
  destruct (mem x allowed) eqn:Ea; cbn [negb].
  { intros H. destruct (IH H) as [? [? ?]].
    split; [right; assumption | split; assumption]. }
  intros H. injection H as <-.
  split; [left; reflexivity | split; assumption].
Qed.

(** The loop stops at the first name, in sorted order, that is neither a
    skipped token nor allowed. *)
Lemma first_unauthorized_finds (tables allowed : list str) (t : str) :
  StronglySorted (fun a b => PyStr.leb a b = true) tables ->
  Forall is_identifier tables ->
  In t tables -> mem t skipped_tokens = false -> mem t allowed = false ->
  exists t', first_unauthorized tables allowed = Some t' /\
             PyStr.leb t' t = true.
Proof.
  intros Hs. induction Hs as [|x tables Hs IH Hall]; intros Hid Hin Hskip Hna.
  - destruct Hin.
  - inversion Hid as [|? ? Hx Hid']; subst. cbn [first_unauthorized].
    rewrite (identifier_not_function Hx).
    destruct Hin as [->|Hin].
    + rewrite Hskip, Hna. cbn [negb]. exists t. split; [reflexivity|apply leb_refl].
    + destruct (mem x skipped_tokens); [apply IH; assumption|].
      destruct (mem x allowed); cbn [negb]; [apply IH; assumption|].
      exists x. split; [reflexivity|].
      exact (proj1 (Forall_forall _ _) Hall t Hin).
Qed.

Section ExecutorFacts.

Variables db row : Type.
Variable sqlite_execute : db -> str -> stmt_outcome db row.
Variable sqlite_commit_error : db -> option str.

Local Abbreviation secure_run_query :=
  (secure_run_query sqlite_execute sqlite_commit_error).
Local Abbreviation run_in_transaction :=
  (run_in_transaction sqlite_execute sqlite_commit_error).
Local Abbreviation run_query := (run_query sqlite_execute sqlite_commit_error).
Local Abbreviation transaction_body_in :=
  (transaction_body_in sqlite_execute sqlite_commit_error).
Local Abbreviation run_in_transaction_in :=
  (run_in_transaction_in sqlite_execute sqlite_commit_error).

Lemma secure_run_query_cases (sql : str) (allowed : list str) (max_rows : Z)
      (w : world db) :
  secure_run_query sql allowed max_rows w =
  if _is_safe_statement sql then
    match first_unauthorized (_extract_table_names sql) allowed with
    | Some t => (UnauthorizedDict (unauthorized_message t) t, w)
    | None => run_in_transaction (capped_statement sql max_rows) w
    end
  else (ErrorDict unsafe_message, w).
Proof.
  unfold Db.secure_run_query.
  destruct (_is_safe_statement sql); reflexivity.
Qed.

(** All the ways through lines 110-123: the connection cannot be made;
    or [BEGIN], the statement or the commit raises, and then the rollback
    succeeds or raises in its turn; or nothing raises. *)
Lemma run_in_transaction_in_cases (env : environment) (q : str)
      (w : world db) :
  run_in_transaction_in env q w =
  match connect_error env with
  | Some e => (Raises e, w)
  | None =>
      let failed (e : str) :=
        match rollback_error env with
        | Some e' => (Raises e', w)
        | None => (Returns (ErrorDict e), w)
        end in
      match begin_error env with
      | Some e => failed e
      | None =>
          match sqlite_execute (disk w) q with
          | StmtRaises e _ => failed e
          | StmtDone work' rows description =>
              match sqlite_commit_error work' with
              | Some e => failed e
              | None =>
                  (Returns
                     (RowsDict rows
                        (match description with Some d => d | None => [] end)),
                   mkWorld work' (open_handles w))
              end
          end
      end
  end.
Proof.
  destruct w as [d n]. destruct env as [ce be re].
  unfold Db.run_in_transaction_in, Db.transaction_body_in,
    try_finally, try_except, bind, ret, raise_or, execute_begin,
    execute_fetch, conn_commit, conn_rollback, conn_close, sqlite3_connect.
  simpl.
  destruct ce as [e|]; [reflexivity|].
  destruct be as [e|]; simpl; [destruct re; reflexivity|].
  destruct (sqlite_execute d q) as [e work'|work' rows description]; simpl;
    [destruct re; reflexivity|].
  destruct (sqlite_commit_error work'); simpl; [destruct re|]; reflexivity.
Qed.

(** The three ways through the [try] statement when the connection is
    made and [BEGIN] and the rollback succeed. *)
Lemma run_in_transaction_cases (q : str) (w : world db) :
  run_in_transaction q w =
  match sqlite_execute (disk w) q with
  | StmtRaises e _ => (ErrorDict e, w)
  | StmtDone work' rows description =>
      match sqlite_commit_error work' with
      | Some e => (ErrorDict e, w)
      | None =>
          (RowsDict rows (match description with Some d => d | None => [] end),
           mkWorld work' (open_handles w))
      end
  end.
Proof.
  unfold Db.run_in_transaction. rewrite run_in_transaction_in_cases. simpl.
  destruct (sqlite_execute (disk w) q) as [e work'|work' rows description];
    [reflexivity|].
  destruct (sqlite_commit_error work'); reflexivity.
Qed.

(** On every way through, the connection that was opened is closed, and
    unless rows are returned the world is as it was before the call. *)
Lemma run_in_transaction_in_atomic (env : environment) (q : str)
      (w : world db) :
  open_handles (snd (run_in_transaction_in env q w)) = open_handles w /\
  match run_in_transaction_in env q w with
  | (Returns (RowsDict _ _), _) => True
  | (_, w') => w' = w
  end.
Proof.
  rewrite run_in_transaction_in_cases.
  destruct (connect_error env); [split; reflexivity|].
  cbn zeta.
  destruct (begin_error env);
    [destruct (rollback_error env); split; reflexivity|].
  destruct (sqlite_execute (disk w) q) as [e work'|work' rows description];
    [destruct (rollback_error env); split; reflexivity|].
  destruct (sqlite_commit_error work');
    [destruct (rollback_error env); split; reflexivity|].
  split; [reflexivity | exact I].
Qed.

(** When the [try] statement is left and the rollback has not raised,
    nothing is raised out of it, no transaction is open any more and the
    connection sees what is in the file. *)
Lemma try_statement_ends_the_transaction (env : environment) (q : str)
      (w : world db) :
  exists r c w',
    try_finally (transaction_body_in env q) (@conn_close db)
                (sqlite3_connect w)
    = (r, (c, w')) /\
    (rollback_error env = None ->
     (exists res, r = inr res) /\
     in_transaction c = false /\ work c = disk w').
Proof.
  destruct w as [d n]. destruct env as [ce be re].
  unfold Db.transaction_body_in,
    try_finally, try_except, bind, ret, raise_or, execute_begin,
    execute_fetch, conn_commit, conn_rollback, conn_close, sqlite3_connect.
  simpl.
  assert (Hdone : forall (r : str + query_result row) (c : connection db)
                         (w' : world db),
             (re = None ->
              (exists res, r = inr res) /\
              in_transaction c = false /\ work c = disk w') ->
             exists r0 c0 w0,
               (r, (c, w')) = (r0, (c0, w0)) /\
               (re = None ->
                (exists res, r0 = inr res) /\
                in_transaction c0 = false /\ work c0 = disk w0)).
  { intros r c w' H. exists r, c, w'. split; [reflexivity | exact H]. }
  destruct re as [e'|]; destruct be as [e|]; simpl;
    try (apply Hdone; discriminate);
    try (apply Hdone; intros _; repeat split; eexists; reflexivity);
    destruct (sqlite_execute d q) as [e0 work'|work' rows description]; simpl;
    try (apply Hdone; discriminate);
    try (apply Hdone; intros _; repeat split; eexists; reflexivity);
    destruct (sqlite_commit_error work'); simpl;
    try (apply Hdone; discriminate);
    apply Hdone; intros _; repeat split; eexists; reflexivity.
Qed.

(** [BEGIN] opens a transaction on the new connection, and the engine runs
    the statement inside it: whether the statement completes or raises,
    the transaction is still open afterwards and the file is as it was. *)
Lemma statement_runs_in_transaction (q : str) (w : world db) :
  @execute_begin db (sqlite3_connect w)
  = (inr tt, (mkConn (disk w) true, mkWorld (disk w) (S (open_handles w)))) /\
  let after :=
    snd (bind (@execute_begin db)
              (fun _ => execute_fetch sqlite_execute q)
              (sqlite3_connect w)) in
  in_transaction (fst after) = true /\ disk (snd after) = disk w /\
  work (fst after)
  = match sqlite_execute (disk w) q with
    | StmtRaises _ work' => work'
    | StmtDone work' _ _ => work'
    end.
Proof.
  split; [reflexivity|].
  unfold bind, execute_begin, execute_fetch, sqlite3_connect. simpl.
  destruct (sqlite_execute (disk w) q); repeat split.
Qed.

(** On a connection without [BEGIN] the same statement is in autocommit
    mode: what it leaves behind is in the file as soon as it ends, also
    when it raises, and a later [rollback()] does not bring the old
    contents back. *)
Lemma statement_outside_transaction (q : str) (w : world db) :
  let after := snd (execute_fetch sqlite_execute q (sqlite3_connect w)) in
  disk (snd after)
  = match sqlite_execute (disk w) q with
    | StmtRaises _ work' => work'
    | StmtDone work' _ _ => work'
    end /\
  disk (snd (snd (@conn_rollback db after))) = disk (snd after).
Proof.
  unfold execute_fetch, conn_rollback, sqlite3_connect. simpl.
  destruct (sqlite_execute (disk w) q); split; reflexivity.
Qed.

End ExecutorFacts.



(** ** The text that is capped is still a validated [SELECT] *)










Section ExecutorClaims.

Variables db row : Type.
Variable sqlite_execute : db -> str -> stmt_outcome db row.
Variable sqlite_commit_error : db -> option str.

Local Abbreviation secure_run_query :=
  (secure_run_query sqlite_execute sqlite_commit_error).
Local Abbreviation run_in_transaction :=
  (run_in_transaction sqlite_execute sqlite_commit_error).
Local Abbreviation run_query := (run_query sqlite_execute sqlite_commit_error).
Local Abbreviation transaction_body_in :=
  (transaction_body_in sqlite_execute sqlite_commit_error).
Local Abbreviation run_in_transaction_in :=
  (run_in_transaction_in sqlite_execute sqlite_commit_error).

(** C1 (amended).  Let [t] be a table that the extractor finds in [sql],
    that is not one of the skipped tokens and that is not allowed.  Then
    the executor called directly returns no rows and leaves the store as
    it is.  If the statement does not pass the safety check, the answer is
    the unsafe-statement error.  If it passes, the answer is the
    unauthorized-table failure for the first such table in sorted order,
    which is [t] itself when [t] is the only referenced table that is not
    allowed. *)
Theorem C1_unauthorized_table_is_refused
        (sql : str) (allowed : list str) (max_rows : Z) (w : world db)
        (t : str) :
  In t (_extract_table_names sql) ->
  ~ In t skipped_tokens ->
  ~ In t allowed ->
  rows_of (fst (secure_run_query sql allowed max_rows w)) = None /\
  snd (secure_run_query sql allowed max_rows w) = w /\
  (_is_safe_statement sql = false ->
   secure_run_query sql allowed max_rows w = (ErrorDict unsafe_message, w)) /\
  (_is_safe_statement sql = true ->
   exists t',
     In t' (_extract_table_names sql) /\ ~ In t' allowed /\
     PyStr.leb t' t = true /\
     secure_run_query sql allowed max_rows w
     = (UnauthorizedDict (unauthorized_message t') t', w)) /\
  (_is_safe_statement sql = true ->
   (forall u, In u (_extract_table_names sql) -> ~ In u allowed -> u = t) ->
   secure_run_query sql allowed max_rows w
   = (UnauthorizedDict (unauthorized_message t) t, w)).
Proof.
  intros Hin Hskip Hna.
  apply mem_false_not_In in Hskip. apply mem_false_not_In in Hna.
  destruct (@first_unauthorized_finds (_extract_table_names sql) allowed t
              (sorted_sorted _) (extract_identifiers sql) Hin Hskip Hna)
    as [t' [Hfirst Hle]].
  destruct (@first_unauthorized_Some _ _ _ Hfirst) as [Hin' [Hna' _]].
  apply mem_false_not_In in Hna'.
  rewrite secure_run_query_cases, Hfirst.
  destruct (_is_safe_statement sql); simpl.
  - repeat split; try discriminate.
    + intros _. exists t'. repeat split; assumption.
    + intros _ Huniq. rewrite (Huniq t' Hin' Hna'). reflexivity.
  - repeat split; discriminate.
Qed.


(** C7 (amended).  The executor opens a transaction with [BEGIN] on the
    connection it has made, and the engine runs the statement inside it:
    when the statement ends, having completed or raised, the transaction
    is still open and the file is as before.  Lines 110-123 then end in one of
    these ways, whatever the engine does and whichever of
    [sqlite3.connect], [BEGIN] and [conn.rollback()] raises.  If the
    connection cannot be made, the exception leaves the function.  If
    [BEGIN], the statement or the commit raises, the handler rolls back
    and the error message is returned as a dictionary; should the
    rollback raise in its turn, its exception leaves the function after
    the connection has been closed.  If nothing raises, the contents the
    statement left become the file and the rows are returned.  On every
    one of these ways the connection that was opened is closed, and
    unless rows are returned the world is as it was before the call.
    When the rollback does not raise, nothing is raised out of the [try]
    statement and no transaction is open when it is left.  The same holds
    for the whole of [secure_run_query]: every connection it opened is
    closed when it returns, and whenever it returns an error the world is
    unchanged. *)
Theorem C7_execution_is_atomic
        (env : environment) (sql : str) (allowed : list str) (max_rows : Z)
        (w : world db) (q : str) :
  (@execute_begin db (sqlite3_connect w)
   = (inr tt, (mkConn (disk w) true, mkWorld (disk w) (S (open_handles w)))) /\
   let after :=
     snd (bind (@execute_begin db)
               (fun _ => execute_fetch sqlite_execute q)
               (sqlite3_connect w)) in
   in_transaction (fst after) = true /\ disk (snd after) = disk w /\
   work (fst after)
   = match sqlite_execute (disk w) q with
     | StmtRaises _ work' => work'
     | StmtDone work' _ _ => work'
     end) /\
  run_in_transaction_in env q w =
  match connect_error env with
  | Some e => (Raises e, w)
  | None =>
      let failed (e : str) :=
        match rollback_error env with
        | Some e' => (Raises e', w)
        | None => (Returns (ErrorDict e), w)
        end in
      match begin_error env with
      | Some e => failed e
      | None =>
          match sqlite_execute (disk w) q with
          | StmtRaises e _ => failed e
          | StmtDone work' rows description =>
              match sqlite_commit_error work' with
              | Some e => failed e
              | None =>
                  (Returns
                     (RowsDict rows
                        (match description with Some d => d | None => [] end)),
                   mkWorld work' (open_handles w))
              end
          end
      end
  end /\
  (open_handles (snd (run_in_transaction_in env q w)) = open_handles w /\
   match run_in_transaction_in env q w with
   | (Returns (RowsDict _ _), _) => True
   | (_, w') => w' = w
   end) /\
  (exists r c w',
      try_finally (transaction_body_in env q) (@conn_close db)
                  (sqlite3_connect w)
      = (r, (c, w')) /\
      (rollback_error env = None ->
       (exists res, r = inr res) /\
       in_transaction c = false /\ work c = disk w')) /\
  open_handles (snd (secure_run_query sql allowed max_rows w))
  = open_handles w /\
  match secure_run_query sql allowed max_rows w with
  | (RowsDict _ _, _) => True
  | (_, w') => w' = w
  end.
Proof.
  split; [apply statement_runs_in_transaction|].
  split; [apply run_in_transaction_in_cases|].
  split; [apply run_in_transaction_in_atomic|].
  split; [apply try_statement_ends_the_transaction|].
  rewrite secure_run_query_cases.
  destruct (_is_safe_statement sql); [|split; reflexivity].
  destruct (first_unauthorized _ _); [split; reflexivity|].
  rewrite run_in_transaction_cases.
  destruct (sqlite_execute _ _) as [e work'|work' rows d];
    [split; reflexivity|].
  destruct (sqlite_commit_error work'); split; simpl; auto.
Qed.

(** C10.  [run_query] is [secure_run_query] with the three schema tables,
    which are the tables of [admin]; whatever the statement, it never
    answers with the unauthorized-table failure for one of the three. *)
Theorem C10_run_query_uses_admin_tables
        (query : str) (max_rows : Z) (w : world db) :
  run_query query max_rows w
  = secure_run_query query
      (map lit ["meter_table"; "customer_table"; "revenue_data"]%string)
      max_rows w /\
  map lit ["meter_table"; "customer_table"; "revenue_data"]%string
  = allowed_tables_for_role (Some (lit "admin")) /\
  match fst (run_query query max_rows w) with
  | UnauthorizedDict _ t =>
      ~ In t (map lit ["meter_table"; "customer_table"; "revenue_data"]%string)
  | _ => True
  end.
Proof.
  split; [reflexivity|]. split; [reflexivity|].
  unfold Db.run_query. rewrite secure_run_query_cases.
  destruct (_is_safe_statement query); [|exact I].
  destruct (first_unauthorized _ _) as [t|] eqn:E.
  - cbn [fst]. apply first_unauthorized_Some in E as [_ [Hna _]].
    exact (proj1 (mem_false_not_In _ _) Hna).
  - rewrite run_in_transaction_cases.
    destruct (sqlite_execute _ _) as [e work'|work' rows d]; [exact I|].
    destruct (sqlite_commit_error work'); exact I.
Qed.

End ExecutorClaims.

(** ** The executor on the examples *)

(** Scenario A of the specification: [planner] and the revenue table. *)
Lemma C1_scenario_A :
  In (lit "revenue_data") (_extract_table_names Demo.select_revenue) /\
  ~ In (lit "revenue_data") skipped_tokens /\
  ~ In (lit "revenue_data") Demo.planner_tables /\
  Demo.run Demo.select_revenue Demo.planner_tables 200
  = (UnauthorizedDict (unauthorized_message (lit "revenue_data"))
                      (lit "revenue_data"),
     Demo.world0).
Proof.
  assert (H1 : In (lit "revenue_data") (_extract_table_names Demo.select_revenue))
    by (apply mem_In; reflexivity).
  assert (H2 : ~ In (lit "revenue_data") skipped_tokens)
    by (apply mem_false_not_In; reflexivity).
  assert (H3 : ~ In (lit "revenue_data") Demo.planner_tables)
    by (apply mem_false_not_In; reflexivity).
  split; [exact H1|]. split; [exact H2|]. split; [exact H3|].
  destruct (@C1_unauthorized_table_is_refused _ _ Demo.execute
              Demo.commit_error Demo.select_revenue Demo.planner_tables 200
              Demo.world0 (lit "revenue_data") H1 H2 H3)
    as [_ [_ [_ [_ Honly]]]].
  apply Honly; [reflexivity|].
  intros u Hu _.
  change (_extract_table_names Demo.select_revenue)
    with [lit "revenue_data"] in Hu.
  destruct Hu as [<-|[]]. reflexivity.
Defined.

(** C1 as stated fails: a statement that references the revenue table and
    does not pass the safety check is answered with the unsafe-statement
    error, not with the unauthorized-table failure. *)
Lemma C1_unsafe_statement_gets_the_unsafe_error :
  In (lit "revenue_data") (_extract_table_names Demo.stacked_revenue) /\
  ~ In (lit "revenue_data") Demo.planner_tables /\
  Demo.run Demo.stacked_revenue Demo.planner_tables 200
  = (ErrorDict unsafe_message, Demo.world0) /\
  Demo.run Demo.stacked_revenue Demo.planner_tables 200
  <> (UnauthorizedDict (unauthorized_message (lit "revenue_data"))
                       (lit "revenue_data"),
      Demo.world0).
Proof.
  split; [apply mem_In; reflexivity|].
  split; [apply mem_false_not_In; reflexivity|].
  assert (H : Demo.run Demo.stacked_revenue Demo.planner_tables 200
              = (ErrorDict unsafe_message, Demo.world0)) by reflexivity.
  split; [exact H|]. rewrite H. discriminate.
Qed.



(** The same for a [SELECT] whose only [ limit ] stands inside a quoted
    literal. *)
Lemma select_with_limit_in_a_literal_is_not_capped :
  _is_safe_statement Demo.select_limit_literal = true /\
  capped_statement Demo.select_limit_literal 2 = Demo.select_limit_literal /\
  Demo.run Demo.select_limit_literal Demo.admin_tables 2
  = (RowsDict [1; 2; 3] [lit "id"], Demo.world0).
Proof. repeat split. Qed.

(** Two referenced tables and a role without any: the failure names the
    first of them in sorted order. *)
Lemma first_of_two_unauthorized_tables :
  _extract_table_names Demo.select_two_tables
  = map lit ["meter_table"; "revenue_data"]%string /\
  Demo.run Demo.select_two_tables (allowed_tables_for_role None) 200
  = (UnauthorizedDict (unauthorized_message (lit "meter_table"))
                      (lit "meter_table"),
     Demo.world0).
Proof. split; reflexivity. Qed.

(** A failing statement: the engine leaves half-written contents behind,
    the error message is returned and the world is unchanged. *)
Lemma failing_select_leaves_the_store :
  Demo.execute (disk Demo.world0) Demo.failing_select
  = StmtRaises (lit "no such column: no_such_column") [0; 1; 2; 3] /\
  Demo.run Demo.failing_select Demo.admin_tables 200
  = (ErrorDict (lit "no such column: no_such_column"), Demo.world0).
Proof. split; reflexivity. Qed.

(** C7 as stated fails where the rollback raises in its turn: the
    statement raises, the handler calls [conn.rollback()], and the
    exception of that call leaves the function, so that no error
    dictionary is returned.  The same happens when the connection cannot
    be made.  In both runs the connection is not left open and the file
    is as it was. *)
Lemma C7_exception_can_leave_the_executor :
  Demo.execute (disk Demo.world0) Demo.failing_select
  = StmtRaises (lit "no such column: no_such_column") [0; 1; 2; 3] /\
  run_in_transaction_in Demo.execute Demo.commit_error
    (mkEnv None None (Some (lit "disk I/O error")))
    Demo.failing_select Demo.world0
  = (Raises (lit "disk I/O error"), Demo.world0) /\
  run_in_transaction_in Demo.execute Demo.commit_error
    (mkEnv (Some (lit "unable to open database file")) None None)
    Demo.failing_select Demo.world0
  = (Raises (lit "unable to open database file"), Demo.world0) /\
  (forall message w',
      run_in_transaction_in Demo.execute Demo.commit_error
        (mkEnv None None (Some (lit "disk I/O error")))
        Demo.failing_select Demo.world0
      <> (Returns (ErrorDict message), w')).
Proof.
  split; [reflexivity|]. split; [reflexivity|]. split; [reflexivity|].
  intros message w'. discriminate.
Qed.

(** The same statement on a connection on which [BEGIN] has not been
    executed: the half-written contents are in the file, and the
    [rollback()] of the handler does not take them out again. *)
Lemma failing_select_without_begin_reaches_the_file :
  let after :=
    snd (try_except
           (bind (execute_fetch Demo.execute Demo.failing_select)
                 (fun _ => @conn_commit Demo.db Demo.commit_error))
           (fun _ => @conn_rollback Demo.db)
           (sqlite3_connect Demo.world0)) in
  disk (snd after) = [0; 1; 2; 3] /\
  disk (snd after) <> disk Demo.world0.
Proof. split; [reflexivity | discriminate]. Qed.

(** ** Result shaper: stride downsampling *)

Lemma ceil_div_floor (n step : nat) :
  1 <= step ->
  ceil_div n step = n / step + (if n mod step =? 0 then 0 else 1).
Proof.
  intros Hstep. unfold ceil_div.
  pose proof (Nat.div_mod_eq n step) as Hn.
  pose proof (Nat.mod_upper_bound n step ltac:(lia)) as Hr.
  destruct (Nat.eqb_spec (n mod step) 0) as [E|E].
  - symmetry. apply Nat.div_unique with (r := step - 1); lia.
  - symmetry. apply Nat.div_unique with (r := n mod step - 1); lia.
Qed.

Lemma slice_from_length (A : Type) (step : nat) (l : list A) (skip : nat) :
  1 <= step ->
  List.length (slice_from step skip l) = ceil_div (List.length l - skip) step.
Proof.
  intros Hstep. revert skip.
  induction l as [|x l IH]; intros skip; simpl.
  - unfold ceil_div. simpl. symmetry. apply Nat.div_small. lia.
  - destruct skip as [|k]; simpl; [|apply IH].
    rewrite IH. unfold ceil_div.
    destruct (Nat.le_gt_cases (step - 1) (List.length l)) as [Hle|Hgt].
    + replace (S (List.length l) + step - 1)
        with ((List.length l - (step - 1) + step - 1) + 1 * step) by lia.
      rewrite Nat.div_add by lia. lia.
    + replace (List.length l - (step - 1)) with 0 by lia.
      rewrite (Nat.div_small (0 + step - 1)) by lia.
      apply Nat.div_unique with (r := List.length l); lia.
Qed.

Lemma slice_from_nth (A : Type) (step : nat) (l : list A) (skip i : nat) :
  1 <= step ->
  nth_error (slice_from step skip l) i = nth_error l (skip + i * step).
Proof.
  intros Hstep. revert skip i.
  induction l as [|x l IH]; intros skip i; simpl.
  - destruct i, (skip + _); reflexivity.
  - destruct skip as [|k]; simpl.
    + destruct i as [|j]; simpl; [reflexivity|].
      rewrite IH.
      replace (step + j * step) with (S (step - 1 + j * step)) by lia.
      reflexivity.
    + apply IH.
Qed.

(** C8 (amended).  For more than 200 points, [step] is the floor of
    [n / 200] and is at least 1; both lists are cut down to the elements
    at the indices 0, [step], 2 [step], ... in their order, so the first
    point is kept and the order of the points is preserved.  The length of
    the result is the ceiling of [n / step]: the floor when [step] divides
    [n], and one more otherwise. *)
Theorem C8_downsample_keeps_every_step_th
        (A B : Type) (dates : list A) (values : list B) :
  List.length values = List.length dates ->
  MAX_POINTS < List.length dates ->
  let n := List.length dates in
  let step := n / MAX_POINTS in
  1 <= step /\
  downsample dates values = (slice_step step dates, slice_step step values) /\
  List.length (fst (downsample dates values)) = ceil_div n step /\
  List.length (snd (downsample dates values)) = ceil_div n step /\
  ceil_div n step = n / step + (if n mod step =? 0 then 0 else 1) /\
  (forall i, nth_error (fst (downsample dates values)) i
             = nth_error dates (i * step)) /\
  (forall i, nth_error (snd (downsample dates values)) i
             = nth_error values (i * step)).
Proof.
  intros Hlen Hn n step.
  assert (Hstep : 1 <= step).
  { unfold step, n. apply Nat.div_le_lower_bound; unfold MAX_POINTS in *; lia. }
  assert (Hd : downsample dates values
               = (slice_step step dates, slice_step step values)).
  { unfold downsample. apply Nat.ltb_lt in Hn. rewrite Hn. reflexivity. }
  rewrite Hd. unfold slice_step. cbn [fst snd].
  repeat split.
  - exact Hstep.
  - rewrite slice_from_length, Nat.sub_0_r by exact Hstep. reflexivity.
  - rewrite slice_from_length, Nat.sub_0_r, Hlen by exact Hstep. reflexivity.
  - apply ceil_div_floor. exact Hstep.
  - intros i. apply slice_from_nth. exact Hstep.
  - intros i. apply slice_from_nth. exact Hstep.
Qed.

(** 401 points: [step] is 2 and the points of the even days are kept. *)
Lemma C8_series_of_401_witness :
  List.length (fst (downsample Demo.days401 Demo.loads401)) = ceil_div 401 2 /\
  nth_error (fst (downsample Demo.days401 Demo.loads401)) 0 = Some 0 /\
  nth_error (fst (downsample Demo.days401 Demo.loads401)) 200 = Some 400 /\
  nth_error (snd (downsample Demo.days401 Demo.loads401)) 200 = Some 4000.
Proof.
  destruct (@C8_downsample_keeps_every_step_th _ _ Demo.days401 Demo.loads401
              eq_refl
              (proj1 (Nat.ltb_lt MAX_POINTS (List.length Demo.days401))
                     eq_refl))
    as [_ [_ [Hlen [_ [_ [Hdates Hvalues]]]]]].
  split; [exact Hlen|].
  split; [rewrite Hdates; reflexivity|].
  split; [rewrite Hdates; reflexivity|].
  rewrite Hvalues; reflexivity.
Defined.

(** C8 as stated fails: 401 points give [step] 2 and 201 kept points,
    while the floor of 401 / 2 is 200. *)
Lemma C8_length_is_the_ceiling_not_the_floor :
  MAX_POINTS < List.length Demo.days401 /\
  List.length Demo.days401 / MAX_POINTS = 2 /\
  List.length (fst (downsample Demo.days401 Demo.loads401)) = 201 /\
  List.length Demo.days401 / (List.length Demo.days401 / MAX_POINTS) = 200 /\
  List.length (fst (downsample Demo.days401 Demo.loads401))
  <> List.length Demo.days401 / (List.length Demo.days401 / MAX_POINTS).
Proof.
  split; [apply Nat.ltb_lt; reflexivity|].
  split; [reflexivity|]. split; [reflexivity|]. split; [reflexivity|].
  vm_compute. discriminate.
Qed.

(** ** Result shaper: rows without a date, and the absent chart *)

Section ShaperClaims.

Variables cell datetime float : Type.
Variable py_str : cell -> str.
Variable py_float : cell -> option float.
Variable strptime : str -> str -> option datetime.
Variable plot_png : list datetime -> list float -> str -> str.

Local Abbreviation parse_datetime_safe := (parse_datetime_safe py_str strptime).
Local Abbreviation row_point := (row_point py_str py_float strptime).
Local Abbreviation collect_points := (collect_points py_str py_float strptime).
Local Abbreviation render_graph_png :=
  (render_graph_png py_str py_float strptime plot_png).

Lemma try_formats_None (fmts : list str) (s : str) :
  try_formats strptime fmts s = None <->
  (forall fmt, In fmt fmts -> strptime s fmt = None).
Proof.
  induction fmts as [|f fmts IH]; simpl.
  - split; [intros _ fmt [] | reflexivity].
  - destruct (strptime s f) eqn:E.
    + split; [discriminate|]. intros H.
      rewrite (H f (or_introl eq_refl)) in E. discriminate.
    + rewrite IH. split.
      * intros H fmt [<-|Hin]; [exact E | exact (H fmt Hin)].
      * intros H fmt Hin. apply H. right. exact Hin.
Qed.

(** [parse_datetime_safe] returns [None] exactly for the texts that every
    format refuses. *)
Lemma parse_datetime_safe_None (val : cell) :
  parse_datetime_safe val = None <->
  fails_every_format strptime (py_str val).
Proof.
  unfold ChatbotPipeline.parse_datetime_safe, fails_every_format.
  rewrite <- try_formats_None.
  destruct (try_formats strptime formats (py_str val)).
  - split; [discriminate | intros [H _]; discriminate H].
  - destruct (strptime (py_str val ++ lit "-1") (lit "%Y-W%W-%w")).
    + split; [discriminate | intros [_ H]; discriminate H].
    + split; [split; reflexivity | reflexivity].
Qed.


Lemma collect_points_skip (di vi : Z) (r : list cell) (rest : list (list cell)) :
  row_point di vi r = None ->
  collect_points di vi (r :: rest) = collect_points di vi rest.
Proof.
  intros H. simpl. rewrite H.
  destruct (collect_points di vi rest). reflexivity.
Qed.

Lemma collect_points_all_skipped (di vi : Z) (rows : list (list cell)) :
  (forall r, In r rows -> row_point di vi r = None) ->
  collect_points di vi rows = ([], []).
Proof.
  induction rows as [|r rows IH]; intros H; [reflexivity|].
  rewrite collect_points_skip by (apply H; left; reflexivity).
  apply IH. intros r' Hr'. apply H. right. exact Hr'.
Qed.

Lemma render_no_dates (rows : list (list cell)) (columns : list str) :
  fst (collect_points (fst (column_indices columns))
                      (snd (column_indices columns)) rows) = [] ->
  render_graph_png rows columns = RenderNone.
Proof.
  unfold ChatbotPipeline.render_graph_png.
  destruct rows as [|r rows]; [reflexivity|].
  destruct (column_indices columns) as [di vi]. cbn [fst snd].
  destruct (collect_points di vi (r :: rows)) as [dates values].
  cbn [fst]. intros ->. reflexivity.
Qed.

(** C9 (amended).  A cell is given no date exactly when [strptime]
    refuses it under each of the five formats of the code: the timestamp
    with seconds, the timestamp without seconds, the date, the year and
    month, and the year-week format applied to the cell followed by
    [-1].  With [di] and [vi] the two column indices: a row whose
    datetime cell is refused by all five gives no point; a row that gives
    no point changes neither the collected points nor the result of the
    render; and when no point is collected, which includes an empty row
    set and a row set in which every row is passed over, the result is
    [None] and not an error. *)
Theorem C9_rows_without_date_are_dropped
        (rows : list (list cell)) (columns : list str) :
  let di := fst (column_indices columns) in
  let vi := snd (column_indices columns) in
  (forall c, parse_datetime_safe c = None <->
             fails_every_format strptime (py_str c)) /\
  (forall r c, py_index r di = Some c ->
               fails_every_format strptime (py_str c) ->
               row_point di vi r = None) /\
  (forall r rest, row_point di vi r = None ->
                  collect_points di vi (r :: rest) = collect_points di vi rest /\
                  render_graph_png (r :: rest) columns
                  = render_graph_png rest columns) /\
  (fst (collect_points di vi rows) = [] ->
   render_graph_png rows columns = RenderNone) /\
  ((forall r, In r rows -> row_point di vi r = None) ->
   render_graph_png rows columns = RenderNone) /\
  render_graph_png [] columns = RenderNone.
Proof.
  intros di vi. split; [|split; [|split; [|split; [|split]]]].
  - intros c. apply parse_datetime_safe_None.
  - intros r c Hc Hfail. unfold ChatbotPipeline.row_point. rewrite Hc.
    apply parse_datetime_safe_None in Hfail. rewrite Hfail. reflexivity.
  - intros r rest Hr.
    pose proof (@collect_points_skip di vi r rest Hr) as Hskip.
    split; [exact Hskip|].
    unfold ChatbotPipeline.render_graph_png.
    fold di vi. rewrite (surjective_pairing (column_indices columns)).
    fold di vi. rewrite Hskip.
    destruct rest as [|r' rest]; reflexivity.
  - apply render_no_dates.
  - intros H. apply render_no_dates. fold di vi.
    rewrite (@collect_points_all_skipped di vi rows H). reflexivity.
  - reflexivity.
Qed.

End ShaperClaims.

(** Three rows, the second with a date that no format accepts: the chart
    is drawn from the other two.  Rows that are all of that kind, and no
    rows at all, give no chart. *)
Lemma C9_bad_row_witness :
  fails_every_format Demo.strptime (lit "next tuesday") /\
  row_point (fun s : str => s) Demo.to_float Demo.strptime 0 1 Demo.bad_row
  = None /\
  Demo.render [Demo.good_row_1; Demo.bad_row; Demo.good_row_2]
              Demo.chart_columns
  = Demo.render [Demo.good_row_1; Demo.good_row_2] Demo.chart_columns /\
  Demo.render [Demo.good_row_1; Demo.good_row_2] Demo.chart_columns
  = RenderImage (lit "png:load_kwh") /\
  Demo.render [Demo.bad_row; Demo.bad_row] Demo.chart_columns = RenderNone /\
  Demo.render [] Demo.chart_columns = RenderNone.
Proof.
  assert (Hfail : fails_every_format Demo.strptime (lit "next tuesday")).
  { split; [|reflexivity]. intros fmt _. unfold Demo.strptime.
    destruct (PyStr.eqb fmt (lit "%Y-%m-%d")); reflexivity. }
  destruct (@C9_rows_without_date_are_dropped _ _ _ (fun s : str => s)
              Demo.to_float Demo.strptime Demo.plot
              [Demo.bad_row; Demo.bad_row] Demo.chart_columns)
    as [_ [Hrow [_ [_ [Hall _]]]]].
  assert (Hbad : row_point (fun s : str => s) Demo.to_float Demo.strptime 0 1
                           Demo.bad_row = None).
  { exact (Hrow Demo.bad_row (lit "next tuesday") eq_refl Hfail). }
  split; [exact Hfail|]. split; [exact Hbad|].
  split; [reflexivity|]. split; [reflexivity|]. split; [|reflexivity].
  apply Hall. intros r [<-|[<-|[]]]; exact Hbad.
Defined.

(** C9 as stated fails: the cell [2024-01] is no ISO timestamp, no ISO
    date and no year-week bucket, yet its row is not dropped: the format
    of year and month accepts it, the row gives a point and the chart is
    drawn from it. *)
Lemma C9_month_cell_is_plotted :
  fails_named_formats Demo.strptime_month (lit "2024-01") /\
  parse_datetime_safe (fun s : str => s) Demo.strptime_month (lit "2024-01")
  = Some 1 /\
  row_point (fun s : str => s) Demo.to_float Demo.strptime_month 0 1
            Demo.month_row
  = Some (1, 10) /\
  Demo.render_month [Demo.month_row] Demo.chart_columns
  = RenderImage (lit "png:load_kwh").
Proof. repeat split. Qed.

(* ================================================================== *)
(** * Part IV: further properties of the code                          *)
(* ================================================================== *)

(** ** The validator *)

Lemma scan_forbidden_true (fs : list str) (low : str) :
  scan_forbidden fs low = true <->
  (forall f, In f fs -> contains f low = false).
Proof.
  induction fs as [|g fs IH]; simpl.
  - split; [intros _ f [] | reflexivity].
  - destruct (contains g low) eqn:E.
    + split; [discriminate|]. intros H.
      rewrite (H g (or_introl eq_refl)) in E. discriminate.
    + rewrite IH. split.
      * intros H f [<-|Hin]; [exact E | exact (H f Hin)].
      * intros H f Hin. apply H. right. exact Hin.
Qed.

(** X1.  A statement is accepted exactly when it has at most one [;] and
    no entry of the denylist occurs in it, letter case aside. *)
Theorem safe_statement_exactly (sql : str) :
  _is_safe_statement sql = true <->
  count ";" sql <= 1 /\ (forall f, In f forbidden -> ~ occurs_ci f sql).
Proof.
  unfold _is_safe_statement.
  destruct (Nat.ltb_spec 1 (count ";" sql)) as [Hgt|Hle].
  - split; [discriminate | intros [H _]; lia].
  - rewrite scan_forbidden_true. split.
    + intros H. split; [exact Hle|]. intros f Hin Hocc.
      apply contains_lower_occurs in Hocc;
        [|exact (proj1 (Forall_forall _ _) forbidden_lowercase f Hin)].
      rewrite (H f Hin) in Hocc. discriminate.
    + intros [_ H] f Hin.
      destruct (contains f (lower sql)) eqn:E; [|reflexivity].
      exfalso. apply (H f Hin). apply contains_lower_occurs; [|exact E].
      exact (proj1 (Forall_forall _ _) forbidden_lowercase f Hin).
Qed.

Lemma eqb_semicolon_lower (c : ascii) :
  eqb_char (lower_char c) ";" = eqb_char c ";".
Proof. each_char c. Qed.

Lemma count_semicolon_lower (s : str) : count ";" (lower s) = count ";" s.
Proof.
  induction s as [|c s IH]; simpl; [reflexivity|].
  rewrite eqb_semicolon_lower, IH. reflexivity.
Qed.

(** X2.  Two statements that differ only in letter case get the same
    verdict. *)
Theorem safe_statement_ignores_case (a b : str) :
  lower a = lower b ->
  _is_safe_statement a = _is_safe_statement b /\ validate a = validate b.
Proof.
  intros H.
  assert (Hc : count ";" a = count ";" b).
  { rewrite <- (count_semicolon_lower a), <- (count_semicolon_lower b), H.
    reflexivity. }
  unfold _is_safe_statement, validate. rewrite Hc, H. split; reflexivity.
Qed.

Lemma safe_statement_ignores_case_witness :
  lower Demo.select_upper = lower Demo.select_lower /\
  _is_safe_statement Demo.select_upper = _is_safe_statement Demo.select_lower /\
  validate Demo.select_upper = validate Demo.select_lower.
Proof.
  split; [reflexivity|].
  exact (safe_statement_ignores_case Demo.select_upper Demo.select_lower
           eq_refl).
Defined.

(** X3.  A text that starts with the sentinel of the SQL generator is
    never executed: whatever follows the sentinel and whatever tables are
    allowed, the executor answers with the unsafe-statement error and
    leaves the world as it is. *)
Theorem sentinel_is_never_executed
        (db row : Type) (sqlite_execute : db -> str -> stmt_outcome db row)
        (sqlite_commit_error : db -> option str)
        (sql : str) (allowed : list str) (max_rows : Z) (w : world db) :
  startswith (lit "--CANNOT_CONVERT--") sql = true ->
  _is_safe_statement sql = false /\
  secure_run_query sqlite_execute sqlite_commit_error sql allowed max_rows w
  = (ErrorDict unsafe_message, w).
Proof.
  intros H. apply startswith_split in H as [r ->].
  assert (Hs : _is_safe_statement (lit "--CANNOT_CONVERT--" ++ r) = false).
  { apply forbidden_entry_rejected with (f := lit "--").
    - apply mem_In. reflexivity.
    - exists [], (lit "--"), (lit "CANNOT_CONVERT--" ++ r).
      split; reflexivity. }
  split; [exact Hs|].
  rewrite secure_run_query_cases, Hs. reflexivity.
Qed.

Lemma sentinel_is_never_executed_witness :
  startswith (lit "--CANNOT_CONVERT--") Demo.sentinel_with_reason = true /\
  Demo.run Demo.sentinel_with_reason Demo.admin_tables 200
  = (ErrorDict unsafe_message, Demo.world0).
Proof.
  split; [reflexivity|].
  exact (proj2 (@sentinel_is_never_executed _ _ Demo.execute Demo.commit_error
                  Demo.sentinel_with_reason Demo.admin_tables 200 Demo.world0
                  eq_refl)).
Defined.

(** ** The extractor: what it returns and what it does not *)

Lemma span_split (p : ascii -> bool) (s a b : str) :
  span p s = (a, b) ->
  s = a ++ b /\ Forall (fun c => p c = true) a /\
  match b with [] => True | c :: _ => p c = false end.
Proof.
  revert a b. induction s as [|c s IH]; simpl; intros a b H.
  - injection H as <- <-. repeat split. constructor.
  - destruct (p c) eqn:E.
    + destruct (span p s) as [a' b'] eqn:Es. injection H as <- <-.
      destruct (IH a' b' eq_refl) as [-> [Hall Hb]].
      repeat split; [constructor; assumption | exact Hb].
    + injection H as <- <-. repeat split; [constructor | exact E].
Qed.

Lemma startswith_lower_firstn (p s : str) :
  startswith p (lower s) = true ->
  lower (firstn (List.length p) s) = p.
Proof.
  revert s. induction p as [|x p IH]; intros [|c s]; simpl; try discriminate;
    try reflexivity.
  intros H. apply andb_true_iff in H as [Hx Hp].
  apply eqb_char_true in Hx. rewrite <- Hx. f_equal. apply IH. exact Hp.
Qed.

Lemma space_is_no_word (c : ascii) :
  is_space c = true -> is_unicode_word c = false.
Proof.
  destruct c as [[] [] [] [] [] [] [] []]; intros H; vm_compute in H;
    try discriminate H; reflexivity.
Qed.

(** On ASCII characters [\w] is the class the patterns write out. *)
Lemma ascii_unicode_word (c : ascii) :
  (code c <? 128) = true -> is_unicode_word c = is_word c.
Proof.
  destruct c as [[] [] [] [] [] [] [] []]; intros H; vm_compute in H;
    try discriminate H; reflexivity.
Qed.

Lemma last_error_app (a b : str) :
  b <> [] -> Regex.last_error (a ++ b) = Regex.last_error b.
Proof.
  intros Hb. unfold Regex.last_error. rewrite rev_app_distr.
  destruct (rev b) as [|c r] eqn:E; [|reflexivity].
  apply (f_equal (@rev ascii)) in E. rewrite rev_involutive in E.
  simpl in E. contradiction.
Qed.

Lemma last_error_In (s : str) (c : ascii) :
  Regex.last_error s = Some c -> In c s.
Proof.
  unfold Regex.last_error. intros H. apply in_rev.
  destruct (rev s) as [|d r]; [discriminate|].
  injection H as ->. left. reflexivity.
Qed.

Lemma xorb_true_right (x : bool) : xorb x true = true -> x = false.
Proof. destruct x; [discriminate | reflexivity]. Qed.

Lemma xorb_true_left (x : bool) : xorb true x = true -> x = false.
Proof. destruct x; [discriminate | reflexivity]. Qed.

(** A match of the pattern of pass 1, taken apart. *)
Lemma match_from_join_shape (prev : option ascii) (s g : str) (n : nat) :
  Regex.match_from_join prev s = Some (g, n) ->
  exists kw ws post,
    s = kw ++ ws ++ g ++ post /\
    (lower kw = lit "from" \/ lower kw = lit "join") /\
    ws <> [] /\ Forall (fun c => is_space c = true) ws /\
    (exists c r, g = c :: r /\ is_ident_start c = true /\
                 Forall (fun c => is_word c = true) r) /\
    Regex.is_word_opt prev = false /\
    is_ident_char_opt (hd_error post) = false.
Proof.
  unfold Regex.match_from_join.
  destruct (Regex.word_boundary prev (hd_error s)) eqn:Eb; [|discriminate].
  destruct (Regex.ci_startswith (lit "from") s
            || Regex.ci_startswith (lit "join") s) eqn:Ekw; [|discriminate].
  cbn [andb].
  destruct (span is_space (skipn 4 s)) as [ws rest] eqn:Ews.
  destruct ws as [|w0 ws]; [discriminate|].
  destruct rest as [|c r]; [discriminate|].
  destruct (is_ident_start c) eqn:Ec; [|discriminate].
  destruct (span is_word r) as [tail post] eqn:Etail.
  intros H. injection H as <- _.
  apply span_split in Ews as [Hs [Hws _]].
  apply span_split in Etail as [Hr [Htail Hpost]].
  assert (Hkw : lower (firstn 4 s) = lit "from" \/ lower (firstn 4 s) = lit "join").
  { apply orb_true_iff in Ekw as [E|E]; [left|right];
      exact (startswith_lower_firstn _ s E). }
  assert (Hhd : Regex.is_word_opt (hd_error s) = true).
  { rewrite <- is_word_opt_hd_lower.
    apply orb_true_iff in Ekw as [E|E];
      apply startswith_split in E as [x Hx]; rewrite Hx; reflexivity. }
  exists (firstn 4 s), (w0 :: ws), post. repeat split.
  - rewrite <- (firstn_skipn 4 s) at 1. rewrite Hs, Hr. reflexivity.
  - exact Hkw.
  - discriminate.
  - exact Hws.
  - exists c, tail. repeat split; assumption.
  - unfold Regex.word_boundary in Eb. rewrite Hhd in Eb.
    apply xorb_true_right. exact Eb.
  - destruct post as [|d post]; [reflexivity | exact Hpost].
Qed.

(** Every group of [finditer] is a match at some position of the text. *)
Lemma finditer_In (s : str) (prev : option ascii) (skip : nat) (g : str) :
  In g (Regex.finditer_from_join prev skip s) ->
  exists pre rest n,
    s = pre ++ rest /\
    Regex.match_from_join
      (match Regex.last_error pre with Some c => Some c | None => prev end)
      rest = Some (g, n).
Proof.
  revert prev skip. induction s as [|c s IH]; intros prev skip; simpl;
    [intros []|].
  assert (Hlift : forall k,
             In g (Regex.finditer_from_join (Some c) k s) ->
             exists pre rest n,
               c :: s = pre ++ rest /\
               Regex.match_from_join
                 (match Regex.last_error pre with
                  | Some d => Some d | None => prev end) rest = Some (g, n)).
  { intros k Hin. destruct (IH _ _ Hin) as [pre [rest [n [-> Hm]]]].
    exists (c :: pre), rest, n. split; [reflexivity|].
    rewrite last_error_cons. destruct (Regex.last_error pre); exact Hm. }
  destruct skip as [|k]; [|apply Hlift].
  destruct (Regex.match_from_join prev (c :: s)) as [[g0 len]|] eqn:E;
    [|apply Hlift].
  intros [<-|Hin]; [|exact (Hlift _ Hin)].
  exists [], (c :: s), len. split; [reflexivity | exact E].
Qed.

Lemma finditer_follows_keyword (sql g : str) :
  In g (Regex.finditer_from_join None 0 sql) -> follows_keyword g sql.
Proof.
  intros Hin. apply finditer_In in Hin as [pre [rest [n [-> Hm]]]].
  apply match_from_join_shape in Hm
    as [kw [ws [post [-> [Hkw [Hne [Hws [Hg [Hprev Hpost]]]]]]]]].
  exists pre, kw, ws, post. repeat split; try assumption.
  destruct (Regex.last_error pre); [exact Hprev | reflexivity].
Qed.

(** [re.search] of pass 2 reports whole-word occurrences only. *)
Lemma search_word_sound (k : str) (s : str) (prev : option ascii) :
  Regex.is_word_opt (hd_error k) = true ->
  Regex.is_word_opt (Regex.last_error k) = true ->
  Regex.search_word k prev s = true ->
  exists pre w post,
    s = pre ++ w ++ post /\ lower w = lower k /\
    Regex.is_word_opt
      (match Regex.last_error pre with Some c => Some c | None => prev end)
    = false /\
    Regex.is_word_opt (hd_error post) = false.
Proof.
  intros Hhd Hlast.
  assert (Hat : forall p t, Regex.match_word k p t = true ->
            exists w post, t = w ++ post /\ lower w = lower k /\
                           Regex.is_word_opt p = false /\
                           Regex.is_word_opt (hd_error post) = false).
  { intros p t H. unfold Regex.match_word in H.
    apply andb_true_iff in H as [H Hb2]. apply andb_true_iff in H as [Hb1 Hci].
    unfold Regex.ci_startswith in Hci.
    pose proof (startswith_lower_firstn _ t Hci) as Hw.
    rewrite lower_length in Hw.
    exists (firstn (List.length k) t), (skipn (List.length k) t).
    assert (Ht_hd : Regex.is_word_opt (hd_error t) = true).
    { rewrite <- is_word_opt_hd_lower.
      apply startswith_split in Hci as [x Hx]. rewrite Hx.
      destruct k as [|c k]; [discriminate Hhd|].
      simpl. rewrite is_unicode_word_lower_char. exact Hhd. }
    assert (Hw_last : Regex.is_word_opt
                        (Regex.last_error (firstn (List.length k) t)) = true).
    { rewrite <- is_word_opt_last_lower, Hw, is_word_opt_last_lower.
      exact Hlast. }
    repeat split.
    - symmetry. apply firstn_skipn.
    - exact Hw.
    - unfold Regex.word_boundary in Hb1. rewrite Ht_hd in Hb1.
      apply xorb_true_right. exact Hb1.
    - unfold Regex.word_boundary in Hb2. rewrite Hw_last in Hb2.
      apply xorb_true_left. exact Hb2. }
  revert prev. induction s as [|c s IH]; intros prev H; simpl in H.
  - rewrite orb_false_r in H.
    destruct (Hat _ _ H) as [w [post [Ht [Hw [Hp Hpost]]]]].
    exists [], w, post. repeat split; assumption.
  - apply orb_true_iff in H as [H|H].
    + destruct (Hat _ _ H) as [w [post [Ht [Hw [Hp Hpost]]]]].
      exists [], w, post. repeat split; assumption.
    + destruct (IH _ H) as [pre [w [post [-> [Hw [Hp Hpost]]]]]].
      exists (c :: pre), w, post. repeat split; try assumption.
      rewrite last_error_cons. destruct (Regex.last_error pre); exact Hp.
Qed.

Lemma fold_pass1_In (gs : list str) (acc : list str) (t : str) :
  In t (fold_left (fun acc g => set_add (lower g) acc) gs acc) ->
  In t acc \/ exists g, In g gs /\ t = lower g.
Proof.
  revert acc. induction gs as [|g gs IH]; simpl; intros acc H; [left; exact H|].
  destruct (IH _ H) as [Hin|[g' [Hg' ->]]].
  - apply In_set_add in Hin as [->|Hin]; [|left; exact Hin].
    right. exists g. split; [left; reflexivity | reflexivity].
  - right. exists g'. split; [right; exact Hg' | reflexivity].
Qed.

Lemma fold_pass2_In (sql : str) (ks : list str) (acc : list str) (t : str) :
  In t (fold_left (fun acc k => if Regex.search_word k None sql
                                then set_add k acc else acc) ks acc) ->
  In t acc \/ (In t ks /\ Regex.search_word t None sql = true).
Proof.
  revert acc. induction ks as [|k ks IH]; simpl; intros acc H; [left; exact H|].
  destruct (IH _ H) as [Hin|[Hin Hs]].
  - destruct (Regex.search_word k None sql) eqn:E; [|left; exact Hin].
    apply In_set_add in Hin as [->|Hin]; [|left; exact Hin].
    right. split; [left; reflexivity | exact E].
  - right. split; [right; exact Hin | exact Hs].
Qed.

(** X4.  The extractor invents no name: each name it returns is a known
    table that occurs in the text as a whole word, or the lower-case form
    of an ASCII identifier that follows [from] or [join] and white space
    in the text.  White space and word characters are Python's, those
    above U+007F included. *)
Theorem extracted_names_occur_in_the_text (sql t : str) :
  In t (_extract_table_names sql) ->
  (In t known /\ whole_word_in t sql) \/
  (exists g, t = lower g /\ follows_keyword g sql).
Proof.
  unfold _extract_table_names. intros H. apply -> In_sorted in H.
  apply fold_pass2_In in H as [H|[Hk Hs]].
  - apply fold_pass1_In in H as [[]|[g [Hg ->]]].
    right. exists g. split; [reflexivity|].
    apply finditer_follows_keyword. exact Hg.
  - left. split; [exact Hk|].
    destruct (proj1 (Forall_forall _ _) known_facts t Hk) as [_ [_ [Hhd Hlast]]].
    destruct (search_word_sound t sql None Hhd Hlast Hs)
      as [pre [w [post [-> [Hw [Hp Hpost]]]]]].
    exists pre, w, post. repeat split; try assumption.
    destruct (Regex.last_error pre); [exact Hp | reflexivity].
Qed.

Lemma extracted_names_occur_witness :
  In (lit "meter_table") (_extract_table_names Demo.select_upper) /\
  ((In (lit "meter_table") known /\
    whole_word_in (lit "meter_table") Demo.select_upper) \/
   (exists g, lit "meter_table" = lower g /\
              follows_keyword g Demo.select_upper)).
Proof.
  assert (H : In (lit "meter_table") (_extract_table_names Demo.select_upper))
    by (apply mem_In; reflexivity).
  split; [exact H|].
  exact (extracted_names_occur_in_the_text Demo.select_upper
           (lit "meter_table") H).
Defined.

(** In an ASCII text an identifier that follows [from] or [join] stands
    there as a whole word. *)
Lemma follows_keyword_whole_word (g sql : str) :
  is_ascii sql = true ->
  follows_keyword g sql -> whole_word_in (lower g) sql.
Proof.
  intros Hascii [pre [kw [ws [post [-> [_ [Hne [Hws [_ [_ Hpost]]]]]]]]]].
  exists (pre ++ kw ++ ws), g, post. repeat split.
  - rewrite <- !app_assoc. reflexivity.
  - symmetry. apply lower_idem.
  - rewrite !app_assoc. rewrite last_error_app by exact Hne.
    destruct (Regex.last_error ws) as [c|] eqn:E; [|reflexivity].
    simpl. apply space_is_no_word.
    exact (proj1 (Forall_forall _ _) Hws c (last_error_In _ E)).
  - destruct post as [|d post]; [reflexivity|].
    unfold is_ascii in Hascii. rewrite !forallb_app in Hascii.
    do 4 (apply andb_true_iff in Hascii as [_ Hascii]).
    simpl in Hascii. apply andb_true_iff in Hascii as [Hd _].
    simpl. rewrite (ascii_unicode_word d Hd). exact Hpost.
Qed.

(** X5.  For an ASCII text and a table of the schema the extractor is
    exact: the name is returned if and only if it occurs in the text as a
    whole word, letter case aside. *)
Theorem known_table_extracted_exactly (sql k : str) :
  is_ascii sql = true ->
  In k known ->
  (In k (_extract_table_names sql) <-> whole_word_in k sql).
Proof.
  intros Hascii Hk.
  destruct (proj1 (Forall_forall _ _) known_facts k Hk) as [_ [_ [Hhd Hlast]]].
  split.
  - intros H. unfold _extract_table_names in H. apply -> In_sorted in H.
    apply fold_pass2_In in H as [H|[_ Hs]].
    + apply fold_pass1_In in H as [[]|[g [Hg ->]]].
      apply (follows_keyword_whole_word Hascii), finditer_follows_keyword.
      exact Hg.
    + destruct (search_word_sound k sql None Hhd Hlast Hs)
        as [pre [w [post [-> [Hw [Hp Hpost]]]]]].
      exists pre, w, post. repeat split; try assumption.
      destruct (Regex.last_error pre); [exact Hp | reflexivity].
  - intros H. apply extract_known; [exact Hk|].
    apply search_word_complete; assumption.
Qed.

Lemma known_table_extracted_exactly_witness :
  is_ascii Demo.select_upper = true /\
  In (lit "revenue_data") known /\
  (In (lit "revenue_data") (_extract_table_names Demo.select_upper)
   <-> whole_word_in (lit "revenue_data") Demo.select_upper) /\
  ~ whole_word_in (lit "revenue_data") Demo.select_upper.
Proof.
  assert (Hk : In (lit "revenue_data") known) by (apply mem_In; reflexivity).
  pose proof (@known_table_extracted_exactly Demo.select_upper
                (lit "revenue_data") eq_refl Hk) as Hiff.
  split; [reflexivity|]. split; [exact Hk|]. split; [exact Hiff|].
  intros H. apply Hiff in H. apply mem_In in H. discriminate H.
Defined.

(** The condition on the text is needed: after [from] the name is taken
    as far as its ASCII letters go, also when an accented letter follows
    and makes it part of a longer word. *)
Lemma accented_letter_after_a_table_name :
  is_ascii Demo.select_accent_after_table = false /\
  In (lit "meter_table")
     (_extract_table_names Demo.select_accent_after_table) /\
  follows_keyword (lit "meter_table") Demo.select_accent_after_table /\
  ~ whole_word_in (lit "meter_table") Demo.select_accent_after_table.
Proof.
  split; [reflexivity|]. split; [apply mem_In; reflexivity|]. split.
  - exists (lit "select * "), (lit "from"), (lit " "), [Demo.e_acute].
    repeat split; try discriminate.
    + left. reflexivity.
    + repeat constructor.
    + exists "m"%char, (lit "eter_table"). repeat split. repeat constructor.
  - intros H.
    apply (@search_word_complete (lit "meter_table")
             Demo.select_accent_after_table eq_refl eq_refl) in H.
    discriminate H.
Qed.

(** X6.  Every name the extractor returns is a non-empty run of letters,
    digits and underscores: it is neither the empty text nor a comma, and
    the pattern for function calls and quotes of the authorization loop
    never matches it. *)
Theorem extracted_names_need_no_token_skip (sql : str) :
  Forall (fun t => is_identifier t /\ t <> [] /\ t <> lit "," /\
                   Regex.match_function_or_quote t = false)
         (_extract_table_names sql).
Proof.
  eapply Forall_impl; [|apply extract_identifiers].
  intros t Hid. split; [exact Hid|]. split; [exact (proj1 Hid)|]. split.
  - intros ->. destruct Hid as [_ Hall].
    inversion Hall as [|? ? Hc _]; subst. discriminate Hc.
  - apply identifier_not_function. exact Hid.
Qed.

(** ** The extractor and letter case *)

Lemma is_space_lower_char (c : ascii) : is_space (lower_char c) = is_space c.
Proof. each_char c. Qed.

Lemma is_ident_start_lower_char (c : ascii) :
  is_ident_start (lower_char c) = is_ident_start c.
Proof. each_char c. Qed.

Lemma span_lower (p : ascii -> bool) (s : str) :
  (forall c, p (lower_char c) = p c) ->
  span p (lower s) = (lower (fst (span p s)), lower (snd (span p s))).
Proof.
  intros Hp. induction s as [|c s IH]; simpl; [reflexivity|].
  rewrite Hp. destruct (p c); [|reflexivity].
  fold (lower s). rewrite IH. destruct (span p s). reflexivity.
Qed.

Lemma is_word_opt_hd_lower_eq (s : str) (prev prev' : option ascii) :
  Regex.is_word_opt prev' = Regex.is_word_opt prev ->
  Regex.word_boundary prev' (hd_error (lower s))
  = Regex.word_boundary prev (hd_error s).
Proof.
  intros H. unfold Regex.word_boundary.
  rewrite H, is_word_opt_hd_lower. reflexivity.
Qed.

Lemma ci_startswith_lower (p s : str) :
  Regex.ci_startswith p (lower s) = Regex.ci_startswith p s.
Proof. unfold Regex.ci_startswith. rewrite lower_idem. reflexivity. Qed.

Lemma match_from_join_lower (s : str) (prev prev' : option ascii) :
  Regex.is_word_opt prev' = Regex.is_word_opt prev ->
  Regex.match_from_join prev' (lower s)
  = match Regex.match_from_join prev s with
    | Some (g, n) => Some (lower g, n)
    | None => None
    end.
Proof.
  intros H. unfold Regex.match_from_join.
  rewrite (is_word_opt_hd_lower_eq s prev prev' H), !ci_startswith_lower.
  destruct (_ && _); [|reflexivity].
  unfold lower at 1. rewrite skipn_map. fold (lower (skipn 4 s)).
  rewrite (span_lower _ _ is_space_lower_char).
  destruct (span is_space (skipn 4 s)) as [ws rest]. cbn [fst snd].
  destruct ws as [|w0 ws]; [reflexivity|].
  destruct rest as [|c r]; [reflexivity|].
  cbn [lower map]. rewrite is_ident_start_lower_char.
  destruct (is_ident_start c); [|reflexivity].
  fold (lower r). rewrite (span_lower _ _ is_word_lower_char).
  destruct (span is_word r) as [tail post]. cbn [fst snd].
  fold (lower ws). rewrite !lower_length.
  cbn [List.length]. rewrite lower_length. reflexivity.
Qed.

Lemma finditer_lower (s : str) (prev prev' : option ascii) (skip : nat) :
  Regex.is_word_opt prev' = Regex.is_word_opt prev ->
  Regex.finditer_from_join prev' skip (lower s)
  = map lower (Regex.finditer_from_join prev skip s).
Proof.
  revert prev prev' skip. induction s as [|c s IH]; intros prev prev' skip H;
    [reflexivity|].
  assert (Hc : Regex.is_word_opt (Some (lower_char c))
               = Regex.is_word_opt (Some c))
    by apply is_unicode_word_lower_char.
  change (lower (c :: s)) with (lower_char c :: lower s).
  cbn [Regex.finditer_from_join].
  destruct skip as [|k]; [|apply IH; exact Hc].
  change (lower_char c :: lower s) with (lower (c :: s)).
  rewrite (match_from_join_lower (c :: s) prev prev' H).
  destruct (Regex.match_from_join prev (c :: s)) as [[g len]|].
  - cbn [map]. f_equal. apply IH. exact Hc.
  - apply IH. exact Hc.
Qed.

Lemma match_word_lower (k s : str) (prev prev' : option ascii) :
  Regex.is_word_opt prev' = Regex.is_word_opt prev ->
  Regex.match_word k prev' (lower s) = Regex.match_word k prev s.
Proof.
  intros H. unfold Regex.match_word.
  rewrite (is_word_opt_hd_lower_eq s prev prev' H), ci_startswith_lower.
  unfold lower at 1 2. rewrite firstn_map, skipn_map.
  fold (lower (firstn (List.length k) s)) (lower (skipn (List.length k) s)).
  unfold Regex.word_boundary.
  rewrite is_word_opt_last_lower, is_word_opt_hd_lower. reflexivity.
Qed.

Lemma search_word_lower (k s : str) (prev prev' : option ascii) :
  Regex.is_word_opt prev' = Regex.is_word_opt prev ->
  Regex.search_word k prev' (lower s) = Regex.search_word k prev s.
Proof.
  revert prev prev'. induction s as [|c s IH]; intros prev prev' H.
  - cbn [lower map Regex.search_word].
    change (@nil ascii) with (lower []) at 1.
    rewrite (match_word_lower k [] prev prev' H). reflexivity.
  - change (lower (c :: s)) with (lower_char c :: lower s).
    cbn [Regex.search_word].
    change (lower_char c :: lower s) with (lower (c :: s)).
    rewrite (match_word_lower k (c :: s) prev prev' H). f_equal.
    apply IH. apply is_unicode_word_lower_char.
Qed.

Lemma fold_pass1_lower (gs : list str) (acc : list str) :
  fold_left (fun acc g => set_add (lower g) acc) (map lower gs) acc
  = fold_left (fun acc g => set_add (lower g) acc) gs acc.
Proof.
  revert acc. induction gs as [|g gs IH]; intros acc; [reflexivity|].
  simpl. rewrite lower_idem. apply IH.
Qed.

Lemma extract_of_lower (sql : str) :
  _extract_table_names (lower sql) = _extract_table_names sql.
Proof.
  unfold _extract_table_names.
  rewrite (@finditer_lower sql None None 0 eq_refl), fold_pass1_lower.
  f_equal.
  generalize (fold_left (fun acc g => set_add (lower g) acc)
                        (Regex.finditer_from_join None 0 sql) []).
  induction known as [|k ks IH]; intros acc; [reflexivity|].
  simpl. rewrite (@search_word_lower k sql None None eq_refl). apply IH.
Qed.

(** X7.  Letter case cannot hide a table: two statements that differ only
    in letter case have the same extracted tables. *)
Theorem extract_ignores_case (a b : str) :
  lower a = lower b -> _extract_table_names a = _extract_table_names b.
Proof.
  intros H. rewrite <- (extract_of_lower a), <- (extract_of_lower b), H.
  reflexivity.
Qed.

Lemma extract_ignores_case_witness :
  lower Demo.select_upper = lower Demo.select_lower /\
  _extract_table_names Demo.select_upper
  = _extract_table_names Demo.select_lower.
Proof.
  split; [reflexivity|].
  exact (extract_ignores_case Demo.select_upper Demo.select_lower eq_refl).
Defined.

(** ** The executor and the table policy *)

Lemma first_unauthorized_mono (tables allowed allowed' : list str) :
  (forall t, In t allowed -> In t allowed') ->
  first_unauthorized tables allowed = None ->
  first_unauthorized tables allowed' = None.
Proof.
  intros Hincl. induction tables as [|x tables IH];
    cbn [first_unauthorized]; [reflexivity|].
  destruct (mem x skipped_tokens); [exact IH|].
  destruct (Regex.match_function_or_quote x); [exact IH|].
  destruct (mem x allowed) eqn:E; cbn [negb]; [|discriminate].
  apply mem_In in E. apply Hincl in E. apply mem_In in E.
  rewrite E. exact IH.
Qed.

Lemma policy_within_schema (role : option str) (t : str) :
  In t (allowed_tables_for_role role) ->
  In t (map lit ["meter_table"; "customer_table"; "revenue_data"]%string).
Proof.
  unfold allowed_tables_for_role, ROLE_TABLES. cbn [dict_get].
  destruct (PyStr.eqb (lit "admin") _); [intros H; exact H|].
  destruct (PyStr.eqb (lit "planner") _); [|intros []].
  intros [<-|[<-|[]]]; [left | right; left]; reflexivity.
Qed.

Section ExecutorPolicy.

Variables db row : Type.
Variable sqlite_execute : db -> str -> stmt_outcome db row.
Variable sqlite_commit_error : db -> option str.

Local Abbreviation secure_run_query :=
  (secure_run_query sqlite_execute sqlite_commit_error).
Local Abbreviation run_query := (run_query sqlite_execute sqlite_commit_error).

(** X8.  More tables never turn an answer into another one: when the
    executor does not refuse a statement for a list of allowed tables, it
    gives the same answer and the same world for every larger list. *)
Theorem more_tables_same_answer
        (sql : str) (allowed allowed' : list str) (max_rows : Z) (w : world db) :
  (forall t, In t allowed -> In t allowed') ->
  match fst (secure_run_query sql allowed max_rows w) with
  | UnauthorizedDict _ _ => False
  | _ => True
  end ->
  secure_run_query sql allowed' max_rows w
  = secure_run_query sql allowed max_rows w.
Proof.
  intros Hincl. rewrite !secure_run_query_cases.
  destruct (_is_safe_statement sql); [|reflexivity].
  destruct (first_unauthorized (_extract_table_names sql) allowed) eqn:E;
    [intros []|].
  intros _.
  rewrite (@first_unauthorized_mono _ allowed allowed' Hincl E). reflexivity.
Qed.

(** X9.  The legacy wrapper does whatever any role may do: when the
    executor does not refuse a statement under the tables of a role,
    [run_query] gives the same answer and the same world. *)
Theorem run_query_covers_every_role
        (sql : str) (role : option str) (max_rows : Z) (w : world db) :
  match fst (secure_run_query sql (allowed_tables_for_role role) max_rows w)
  with
  | UnauthorizedDict _ _ => False
  | _ => True
  end ->
  run_query sql max_rows w
  = secure_run_query sql (allowed_tables_for_role role) max_rows w.
Proof.
  unfold Db.run_query. rewrite !secure_run_query_cases.
  destruct (_is_safe_statement sql); [|reflexivity].
  destruct (first_unauthorized (_extract_table_names sql)
                               (allowed_tables_for_role role)) eqn:E;
    [intros []|].
  intros _.
  rewrite (@first_unauthorized_mono _ (allowed_tables_for_role role) _
             (policy_within_schema role) E).
  reflexivity.
Qed.

End ExecutorPolicy.

Lemma more_tables_same_answer_witness :
  (forall t, In t Demo.planner_tables -> In t Demo.admin_tables) /\
  Demo.run Demo.select_lower Demo.admin_tables 2
  = Demo.run Demo.select_lower Demo.planner_tables 2 /\
  Demo.run Demo.select_lower Demo.planner_tables 2
  = (RowsDict [1; 2] [lit "id"], Demo.world0).
Proof.
  assert (Hincl : forall t, In t Demo.planner_tables -> In t Demo.admin_tables).
  { intros t [<-|[<-|[]]]; [left | right; left]; reflexivity. }
  split; [exact Hincl|]. split; [|reflexivity].
  exact (@more_tables_same_answer _ _ Demo.execute Demo.commit_error
           Demo.select_lower Demo.planner_tables Demo.admin_tables 2
           Demo.world0 Hincl I).
Defined.

Lemma run_query_covers_every_role_witness :
  run_query Demo.execute Demo.commit_error Demo.select_lower 2 Demo.world0
  = Demo.run Demo.select_lower Demo.planner_tables 2.
Proof.
  exact (@run_query_covers_every_role _ _ Demo.execute Demo.commit_error
           Demo.select_lower (Some (lit "planner")) 2 Demo.world0 I).
Defined.

(** ** The row cap is appended once *)

Lemma lstrip_hd (s : str) : is_space_opt (hd_error (lstrip s)) = false.
Proof.
  induction s as [|c s IH]; simpl; [reflexivity|].
  destruct (is_space c) eqn:E; [exact IH | exact E].
Qed.

Lemma lstrip_fix (s : str) :
  is_space_opt (hd_error s) = false -> lstrip s = s.
Proof. destruct s as [|c s]; simpl; [reflexivity | intros ->; reflexivity]. Qed.

Lemma hd_error_rev (s : str) : hd_error (rev s) = Regex.last_error s.
Proof. unfold Regex.last_error. destruct (rev s); reflexivity. Qed.

Lemma last_error_rev (s : str) : Regex.last_error (rev s) = hd_error s.
Proof. rewrite <- hd_error_rev, rev_involutive. reflexivity. Qed.

Lemma rstrip_fix (s : str) :
  is_space_opt (Regex.last_error s) = false -> rstrip s = s.
Proof.
  intros H. unfold rstrip. rewrite lstrip_fix; [apply rev_involutive|].
  rewrite hd_error_rev. exact H.
Qed.

Lemma rstrip_last (s : str) :
  is_space_opt (Regex.last_error (rstrip s)) = false.
Proof. unfold rstrip. rewrite last_error_rev. apply lstrip_hd. Qed.

Lemma lstrip_keeps_last (x : str) (c : ascii) :
  is_space c = false -> exists y, lstrip (x ++ [c]) = y ++ [c].
Proof.
  intros Hc. induction x as [|d x IH]; simpl.
  - rewrite Hc. exists []. reflexivity.
  - destruct (is_space d); [exact IH|]. exists (d :: x). reflexivity.
Qed.

Lemma rstrip_hd (s : str) :
  is_space_opt (hd_error s) = false ->
  is_space_opt (hd_error (rstrip s)) = false.
Proof.
  destruct s as [|c s]; [reflexivity|]. simpl. intros Hc.
  unfold rstrip. simpl rev.
  destruct (lstrip_keeps_last (rev s) c Hc) as [y ->].
  rewrite rev_app_distr. simpl. exact Hc.
Qed.

Lemma strip_no_edge_space (s : str) : no_edge_space (strip s).
Proof.
  unfold strip. split; [apply rstrip_hd, lstrip_hd | apply rstrip_last].
Qed.

Lemma strip_fix (s : str) : no_edge_space s -> strip s = s.
Proof.
  intros [Hhd Hlast]. unfold strip. rewrite (lstrip_fix s Hhd).
  apply rstrip_fix. exact Hlast.
Qed.

Lemma select_head (q : str) :
  startswith (lit "select") (lower q) = true ->
  exists c d r, q = c :: d :: r /\ is_space c = false.
Proof.
  intros H. apply startswith_split in H as [x Hx].
  destruct q as [|c [|d r]]; try discriminate Hx.
  exists c, d, r. split; [reflexivity|].
  rewrite <- is_space_lower_char. injection Hx as -> _. reflexivity.
Qed.

(** X10.  Capping is idempotent: the statement that the executor hands to
    the engine is left as it is when it is capped again, so a second
    [LIMIT] is never appended and no white space is left at its ends. *)
Theorem capped_statement_idempotent (sql : str) (max_rows : Z) :
  capped_statement (capped_statement sql max_rows) max_rows
  = capped_statement sql max_rows /\
  no_edge_space (capped_statement sql max_rows).
Proof.
  assert (Hfix : forall q, no_edge_space q ->
            (startswith (lit "select") (lower q)
             && negb (contains (lit " limit ") (lower q))
             && negb (endswith (lit "limit") (lower q))) = false ->
            capped_statement q max_rows = q).
  { intros q Hq Hg. unfold capped_statement.
    rewrite (strip_fix Hq), Hg. reflexivity. }
  remember (capped_statement sql max_rows) as res eqn:Hres.
  unfold capped_statement in Hres.
  pose proof (strip_no_edge_space sql) as Hstrip.
  set (q := strip sql) in *.
  destruct (startswith (lit "select") (lower q)
            && negb (contains (lit " limit ") (lower q))
            && negb (endswith (lit "limit") (lower q))) eqn:G; subst res.
  - apply andb_true_iff in G as [G _]. apply andb_true_iff in G as [G _].
    destruct (select_head q G) as [c [d [r [Hq Hc]]]].
    set (q0 := if endswith (lit ";") q then removelast q else q).
    assert (Hq0 : exists r0, q0 = c :: r0).
    { unfold q0. destruct (endswith (lit ";") q); rewrite Hq;
        [exists (removelast (d :: r)) | exists (d :: r)]; reflexivity. }
    destruct Hq0 as [r0 Hq0].
    assert (Hedge : no_edge_space
                      (q0 ++ lit " LIMIT " ++ str_of_int max_rows ++ lit ";")).
    { split.
      - rewrite Hq0. simpl. exact Hc.
      - rewrite !app_assoc. rewrite last_error_app by discriminate.
        reflexivity. }
    split; [|exact Hedge].
    apply Hfix; [exact Hedge|].
    rewrite !lower_app.
    change (lower (lit " LIMIT ")) with (lit " limit ").
    rewrite contains_app. rewrite andb_false_r. reflexivity.
  - split; [|exact Hstrip]. apply Hfix; assumption.
Qed.

(** ** The pipeline in front of the executor *)

Lemma sentinel_is_unsafe (sql : str) :
  startswith (lit "--CANNOT_CONVERT--") sql = true ->
  _is_safe_statement sql = false.
Proof.
  intros H. apply startswith_split in H as [r ->].
  apply forbidden_entry_rejected with (f := lit "--").
  - apply mem_In. reflexivity.
  - exists [], (lit "--"), (lit "CANNOT_CONVERT--" ++ r). split; reflexivity.
Qed.

Lemma safe_has_one_semicolon (sql : str) :
  _is_safe_statement sql = true -> count ";" sql <= 1.
Proof.
  unfold _is_safe_statement.
  destruct (Nat.ltb_spec 1 (count ";" sql)); [discriminate | intros _; lia].
Qed.

Lemma precheck_skipped_are_skipped (t : str) :
  mem t Pipeline.precheck_skipped = true -> mem t skipped_tokens = true.
Proof.
  intros H. apply mem_In in H. apply mem_In.
  destruct H as [<-|[<-|[<-|[<-|[<-|[<-|[]]]]]]]; apply mem_In; reflexivity.
Qed.

Lemma precheck_passes_executor_check (tables allowed : list str) :
  Pipeline.first_forbidden_table tables allowed = None ->
  first_unauthorized tables allowed = None.
Proof.
  induction tables as [|x tables IH];
    cbn [Pipeline.first_forbidden_table first_unauthorized]; [reflexivity|].
  destruct (mem x Pipeline.precheck_skipped) eqn:Ep.
  - rewrite (precheck_skipped_are_skipped x Ep). exact IH.
  - destruct (mem x allowed); cbn [negb]; [|discriminate].
    intros H. destruct (mem x skipped_tokens); [exact (IH H)|].
    destruct (Regex.match_function_or_quote x); exact (IH H).
Qed.

Lemma first_forbidden_table_Some (tables allowed : list str) (t : str) :
  Pipeline.first_forbidden_table tables allowed = Some t ->
  In t tables /\ ~ In t allowed.
Proof.
  induction tables as [|x tables IH]; cbn [Pipeline.first_forbidden_table];
    [discriminate|].
  destruct (mem x Pipeline.precheck_skipped).
  { intros H. destruct (IH H). split; [right|]; assumption. }
  destruct (mem x allowed) eqn:Ea; cbn [negb].
  { intros H. destruct (IH H). split; [right|]; assumption. }
  intros H. injection H as <-.
  split; [left; reflexivity | apply mem_false_not_In; exact Ea].
Qed.

Lemma first_forbidden_table_None (tables allowed : list str) (t : str) :
  Pipeline.first_forbidden_table tables allowed = None ->
  In t tables -> In t Pipeline.precheck_skipped \/ In t allowed.
Proof.
  induction tables as [|x tables IH]; cbn [Pipeline.first_forbidden_table];
    [intros _ []|].
  destruct (mem x Pipeline.precheck_skipped) eqn:Ep.
  { intros H [<-|Hin]; [left; apply mem_In; exact Ep | exact (IH H Hin)]. }
  destruct (mem x allowed) eqn:Ea; cbn [negb]; [|discriminate].
  intros H [<-|Hin]; [right; apply mem_In; exact Ea | exact (IH H Hin)].
Qed.

Section PipelineFacts.

Variables db row : Type.
Variable sqlite_execute : db -> str -> stmt_outcome db row.
Variable sqlite_commit_error : db -> option str.
Variable natural_to_sql : str -> str -> option str.
Variable summarize_results : str -> str -> list row -> str.

Local Abbreviation secure_run_query :=
  (secure_run_query sqlite_execute sqlite_commit_error).
Local Abbreviation handle_nl2sql :=
  (Pipeline.handle_nl2sql sqlite_execute sqlite_commit_error
                          natural_to_sql summarize_results).
Local Abbreviation chat_endpoint :=
  (Main.chat_endpoint sqlite_execute sqlite_commit_error
                      natural_to_sql summarize_results).

Lemma secure_error_keeps_world
      (sql : str) (allowed : list str) (max_rows : Z) (w : world db) :
  match secure_run_query sql allowed max_rows w with
  | (RowsDict _ _, _) => True
  | (_, w') => w' = w
  end.
Proof.
  rewrite secure_run_query_cases.
  destruct (_is_safe_statement sql); [|reflexivity].
  destruct (first_unauthorized _ _); [reflexivity|].
  rewrite run_in_transaction_cases.
  destruct (sqlite_execute _ _) as [e work'|work' rows d]; [reflexivity|].
  destruct (sqlite_commit_error work'); [reflexivity | exact I].
Qed.

Lemma secure_rows_need_safe
      (sql : str) (allowed : list str) (max_rows : Z) (w : world db) :
  _is_safe_statement sql = false ->
  secure_run_query sql allowed max_rows w = (ErrorDict unsafe_message, w).
Proof. intros H. rewrite secure_run_query_cases, H. reflexivity. Qed.

(** X11.  The check of the pipeline makes the check of the executor
    redundant: when the loop of [handle_nl2sql] lets the tables of a
    statement pass, the executor does not answer with the
    unauthorized-table failure. *)
Theorem precheck_covers_executor_check
        (sql : str) (allowed : list str) (max_rows : Z) (w : world db) :
  Pipeline.first_forbidden_table (_extract_table_names sql) allowed = None ->
  Pipeline.res_get_unauthorized_table
    (fst (secure_run_query sql allowed max_rows w)) = None.
Proof.
  intros H. rewrite secure_run_query_cases.
  destruct (_is_safe_statement sql); [|reflexivity].
  rewrite (precheck_passes_executor_check _ _ H).
  rewrite run_in_transaction_cases.
  destruct (sqlite_execute _ _) as [e work'|work' rows d]; [reflexivity|].
  destruct (sqlite_commit_error work'); reflexivity.
Qed.

(** The ways through [handle_nl2sql], by the generated SQL. *)
Lemma handle_nl2sql_cases (question : str) (role : option str) (w : world db) :
  (exists msg,
      handle_nl2sql question role w = (Pipeline.ErrorResponse msg 400 None, w) /\
      (natural_to_sql question [] = None \/
       exists sql, natural_to_sql question [] = Some sql /\
                   (sql = [] \/
                    startswith (lit "--CANNOT_CONVERT--") sql = true \/
                    1 < count ";" sql)))
  \/
  (exists sql,
      natural_to_sql question [] = Some sql /\ sql <> [] /\
      startswith (lit "--CANNOT_CONVERT--") sql = false /\
      count ";" sql <= 1 /\
      ((exists t,
           Pipeline.first_forbidden_table
             (_extract_table_names sql) (allowed_tables_for_role role) = Some t /\
           handle_nl2sql question role w
           = (Pipeline.ErrorResponse (Pipeline.forbidden_message role (Some t))
                            403 (Some t), w))
       \/
       (Pipeline.first_forbidden_table
          (_extract_table_names sql) (allowed_tables_for_role role) = None /\
        match secure_run_query sql (allowed_tables_for_role role) 200 w with
        | (ErrorDict [], w') =>
            handle_nl2sql question role w
            = (Pipeline.ResultResponse question (lit "nl2sql") sql [] [] 0
                 (Pipeline.decide_output_type question)
                 (summarize_results question sql []), w')
        | (ErrorDict e, w') =>
            handle_nl2sql question role w
            = (if startswith (lit "unauthorized_table_access") e
               then Pipeline.ErrorResponse (Pipeline.forbidden_message role None)
                                  403 None
               else Pipeline.ErrorResponse e 400 None, w')
        | (UnauthorizedDict _ _, _) => False
        | (RowsDict rows columns, w') =>
            handle_nl2sql question role w
            = (Pipeline.ResultResponse question (lit "nl2sql") sql rows columns
                 (List.length columns)
                 (Pipeline.decide_output_type question)
                 (summarize_results question sql rows), w')
        end))).
Proof.
  unfold Pipeline.handle_nl2sql.
  destruct (natural_to_sql question []) as [[|c sql]|] eqn:Esql.
  - left. eexists. split; [reflexivity|]. right. exists []. auto.
  - destruct (startswith (lit "--CANNOT_CONVERT--") (c :: sql)) eqn:Es.
    { left. eexists. split; [reflexivity|]. right. exists (c :: sql). auto. }
    destruct (Nat.ltb_spec 1 (count ";" (c :: sql))) as [Hc|Hc].
    { left. eexists. split; [reflexivity|]. right. exists (c :: sql). auto. }
    right. exists (c :: sql).
    split; [reflexivity|]. split; [discriminate|]. split; [exact Es|].
    split; [exact Hc|].
    destruct (Pipeline.first_forbidden_table _ _) as [t|] eqn:Ef.
    { left. exists t. split; reflexivity. }
    right. split; [reflexivity|].
    pose proof (precheck_covers_executor_check (c :: sql) _ 200 w Ef) as Hno.
    destruct (secure_run_query (c :: sql) (allowed_tables_for_role role) 200 w)
      as [res w'].
    destruct res as [e|e t|rows columns]; cbn [fst] in Hno.
    + destruct e as [|x e]; [reflexivity|].
      cbn [Pipeline.res_get_error Pipeline.truthy
           Pipeline.res_get_unauthorized_table Pipeline.format_opt].
      rewrite orb_false_r.
      destruct (startswith (lit "unauthorized_table_access") (x :: e));
        reflexivity.
    + discriminate Hno.
    + reflexivity.
  - left. eexists. split; [reflexivity|]. left. reflexivity.
Qed.

(** X12.  An answer 403 that names a table names a table that the
    extractor found in the generated SQL and that the role may not read;
    its message is the forbidden message for that role and table, and
    the world is untouched. *)
Theorem forbidden_answer_names_a_refused_table
        (question : str) (role : option str) (w w' : world db)
        (msg : str) (code : Z) (t : str) :
  handle_nl2sql question role w = (Pipeline.ErrorResponse msg code (Some t), w') ->
  exists sql,
    natural_to_sql question [] = Some sql /\
    In t (_extract_table_names sql) /\
    ~ In t (allowed_tables_for_role role) /\
    code = 403%Z /\
    msg = Pipeline.forbidden_message role (Some t) /\
    w' = w.
Proof.
  intros H.
  destruct (handle_nl2sql_cases question role w)
    as [[m [Heq _]]|[sql [Hsql [_ [_ [_ [[t' [Hf Heq]]|[_ Hrun]]]]]]]].
  - rewrite Heq in H. discriminate H.
  - rewrite Heq in H. injection H as <- <- <- <-.
    destruct (first_forbidden_table_Some _ _ Hf) as [Hin Hna].
    exists sql. repeat split; assumption.
  - destruct (secure_run_query sql (allowed_tables_for_role role) 200 w)
      as [[e|e u|rows columns] w1]; [|contradiction|].
    + destruct e as [|x e]; [rewrite Hrun in H; discriminate H|].
      rewrite Hrun in H.
      destruct (startswith (lit "unauthorized_table_access") (x :: e));
        discriminate H.
    + rewrite Hrun in H. discriminate H.
Qed.

(** X13.  An answer with rows is given only for SQL that the generator
    produced for the question, that passes the safety check, and whose
    extracted tables are all allowed for the role (the tokens that the
    loop of the pipeline skips aside). *)
Theorem rows_only_for_safe_authorized_sql
        (question : str) (role : option str) (w w' : world db)
        (q intent sql : str) (rows : list row) (columns : list str)
        (ncols : nat) (output_type summary : str) :
  handle_nl2sql question role w
  = (Pipeline.ResultResponse q intent sql rows columns ncols output_type summary, w') ->
  natural_to_sql question [] = Some sql /\
  _is_safe_statement sql = true /\
  (forall t, In t (_extract_table_names sql) ->
             In t Pipeline.precheck_skipped \/
             In t (allowed_tables_for_role role)) /\
  q = question /\ intent = lit "nl2sql" /\
  ncols = List.length columns /\
  output_type = Pipeline.decide_output_type question /\
  summary = summarize_results question sql rows.
Proof.
  intros H.
  destruct (handle_nl2sql_cases question role w)
    as [[m [Heq _]]|[sql0 [Hsql [_ [_ [_ [[t' [Hf Heq]]|[Hf Hrun]]]]]]]].
  - rewrite Heq in H. discriminate H.
  - rewrite Heq in H. discriminate H.
  - assert (Hsafe : _is_safe_statement sql0 = true).
    { destruct (_is_safe_statement sql0) eqn:E; [reflexivity|].
      rewrite (secure_rows_need_safe _ _ 200 w E) in Hrun.
      rewrite Hrun in H. discriminate H. }
    destruct (secure_run_query sql0 (allowed_tables_for_role role) 200 w)
      as [[e|e u|rows0 columns0] w1]; [|contradiction|].
    + destruct e as [|x e].
      * rewrite Hrun in H. injection H as <- <- <- <- <- <- <- <- <-.
        repeat split; try assumption; try reflexivity.
        intros t. apply first_forbidden_table_None. exact Hf.
      * rewrite Hrun in H.
        destruct (startswith (lit "unauthorized_table_access") (x :: e));
          discriminate H.
    + rewrite Hrun in H. injection H as <- <- <- <- <- <- <- <- <-.
      repeat split; try assumption; try reflexivity.
      intros t. apply first_forbidden_table_None. exact Hf.
Qed.

(** X14.  Every error answer of [handle_nl2sql] has the status 400 or
    403 and leaves the world as it was. *)
Theorem error_answers_keep_the_world
        (question : str) (role : option str) (w w' : world db)
        (msg : str) (code : Z) (table : option str) :
  handle_nl2sql question role w = (Pipeline.ErrorResponse msg code table, w') ->
  (code = 400%Z \/ code = 403%Z) /\ w' = w.
Proof.
  intros H.
  destruct (handle_nl2sql_cases question role w)
    as [[m [Heq _]]|[sql [Hsql [_ [_ [_ [[t' [Hf Heq]]|[_ Hrun]]]]]]]].
  - rewrite Heq in H. injection H as <- <- <- <-. auto.
  - rewrite Heq in H. injection H as <- <- <- <-. auto.
  - pose proof (secure_error_keeps_world sql (allowed_tables_for_role role)
                                         200 w) as Hw.
    destruct (secure_run_query sql (allowed_tables_for_role role) 200 w)
      as [[e|e u|rows columns] w1]; [|contradiction|].
    + destruct e as [|x e]; [rewrite Hrun in H; discriminate H|].
      rewrite Hrun in H.
      destruct (startswith (lit "unauthorized_table_access") (x :: e));
        injection H as <- <- <- <-; auto.
    + rewrite Hrun in H. discriminate H.
Qed.

(** X15.  An exception without a message is not reported: when the
    engine raises with an empty message on the capped statement of
    safe, authorized SQL, the answer is a result with no rows and no
    columns, and the world is as before. *)
Theorem silent_exception_looks_like_no_rows
        (question : str) (role : option str) (w : world db)
        (sql : str) (work' : db) :
  natural_to_sql question [] = Some sql ->
  sql <> [] ->
  _is_safe_statement sql = true ->
  Pipeline.first_forbidden_table
    (_extract_table_names sql) (allowed_tables_for_role role) = None ->
  sqlite_execute (disk w) (capped_statement sql 200) = StmtRaises [] work' ->
  handle_nl2sql question role w
  = (Pipeline.ResultResponse question (lit "nl2sql") sql [] [] 0
       (Pipeline.decide_output_type question)
       (summarize_results question sql []), w).
Proof.
  intros Hsql Hne Hsafe Hf Hraise.
  destruct (handle_nl2sql_cases question role w)
    as [[m [_ [Hnone|[s [Hs Hbad]]]]]|[s [Hs [_ [_ [_ [[t [Hf' _]]|[_ Hrun]]]]]]]].
  - congruence.
  - rewrite Hsql in Hs. injection Hs as <-.
    destruct Hbad as [->|[Hsent|Hmany]]; [congruence| |].
    + rewrite (sentinel_is_unsafe sql Hsent) in Hsafe. discriminate Hsafe.
    + apply safe_has_one_semicolon in Hsafe. lia.
  - rewrite Hsql in Hs. injection Hs as <-. congruence.
  - rewrite Hsql in Hs. injection Hs as <-.
    rewrite secure_run_query_cases, Hsafe,
      (precheck_passes_executor_check _ _ Hf),
      run_in_transaction_cases, Hraise in Hrun.
    exact Hrun.
Qed.

End PipelineFacts.

(** ** The endpoint *)

Section MainFacts.

Variables db row : Type.
Variable sqlite_execute : db -> str -> stmt_outcome db row.
Variable sqlite_commit_error : db -> option str.
Variable natural_to_sql : str -> str -> option str.
Variable summarize_results : str -> str -> list row -> str.

Local Abbreviation handle_nl2sql :=
  (Pipeline.handle_nl2sql sqlite_execute sqlite_commit_error
                          natural_to_sql summarize_results).
Local Abbreviation chat_endpoint :=
  (Main.chat_endpoint sqlite_execute sqlite_commit_error
                      natural_to_sql summarize_results).

Lemma classify_intent_values (question : str) :
  PyStr.eqb (Pipeline.classify_intent question) (lit "python_model") = false ->
  Pipeline.classify_intent question = lit "nl2sql".
Proof.
  unfold Pipeline.classify_intent.
  destruct (existsb _ _); [discriminate | reflexivity].
Qed.



(** X17.  Rows reach the caller only through the whole chain: the
    question is a text, not empty, not a greeting and not a forecast
    question,
    the SQL generated for it passes the safety check, and every table
    extracted from it is allowed for the role of the token (the tokens
    skipped by the pipeline aside). *)
Theorem chat_rows_only_for_allowed_tables
        (question : Main.json_value) (role : option str) (w w' : world db)
        (status : Z) (q intent sql : str) (rows : list row)
        (columns : list str) (ncols : nat) (output_type summary : str) :
  chat_endpoint question role w
  = ((status,
      Main.PipelineReply
        (Pipeline.ResultResponse q intent sql rows columns ncols
                                 output_type summary)), w') ->
  status = 200%Z /\
  question = Main.JString q /\ q <> [] /\
  Pipeline.is_greeting q = false /\
  Pipeline.classify_intent q = lit "nl2sql" /\
  natural_to_sql q [] = Some sql /\
  _is_safe_statement sql = true /\
  (forall t, In t (_extract_table_names sql) ->
             In t Pipeline.precheck_skipped \/
             In t (allowed_tables_for_role role)).
Proof.
  unfold Main.chat_endpoint.
  destruct question as [|[|c q0]|[|]]; cbn [Main.json_truthy negb];
    try discriminate.
  destruct (Pipeline.is_greeting (c :: q0)) eqn:Eg; [discriminate|].
  destruct (PyStr.eqb _ _) eqn:Ei; [discriminate|].
  destruct (handle_nl2sql (c :: q0) role w) as [res w1] eqn:Eh.
  intros H. injection H as Hst Hres Hw. subst res.
  destruct (handle_nl2sql_cases sqlite_execute sqlite_commit_error
              natural_to_sql summarize_results (c :: q0) role w)
    as [[m [Heq _]]|[sql0 [Hsql [_ [_ [_ [[t' [Hf Heq]]|[Hf Hrun]]]]]]]].
  - rewrite Heq in Eh. discriminate Eh.
  - rewrite Heq in Eh. discriminate Eh.
  - assert (Hsafe : _is_safe_statement sql0 = true).
    { destruct (_is_safe_statement sql0) eqn:E; [reflexivity|].
      rewrite (secure_rows_need_safe sqlite_execute sqlite_commit_error
                 _ _ 200 w E) in Hrun.
      rewrite Hrun in Eh. discriminate Eh. }
    assert (Hall : forall t, In t (_extract_table_names sql0) ->
                             In t Pipeline.precheck_skipped \/
                             In t (allowed_tables_for_role role)).
    { intros t. apply first_forbidden_table_None. exact Hf. }
    destruct (secure_run_query sqlite_execute sqlite_commit_error sql0
                (allowed_tables_for_role role) 200 w)
      as [[e|e u|rows0 columns0] w2]; [|contradiction|].
    + destruct e as [|x e].
      * rewrite Hrun in Eh. injection Eh as <- <- <- <- <- <- <- <- <-.
        repeat split; try assumption; try reflexivity; try discriminate.
        -- symmetry. exact Hst.
        -- apply classify_intent_values. exact Ei.
      * rewrite Hrun in Eh.
        destruct (startswith (lit "unauthorized_table_access") (x :: e));
          discriminate Eh.
    + rewrite Hrun in Eh. injection Eh as <- <- <- <- <- <- <- <- <-.
      repeat split; try assumption; try reflexivity; try discriminate.
      * symmetry. exact Hst.
      * apply classify_intent_values. exact Ei.
Qed.

End MainFacts.

(** ** The pipeline and the endpoint on the examples *)

Lemma precheck_covers_executor_check_witness :
  Pipeline.first_forbidden_table (_extract_table_names Demo.select_lower)
                                 Demo.planner_tables = None /\
  Pipeline.res_get_unauthorized_table
    (fst (Demo.run Demo.select_lower Demo.planner_tables 200)) = None.
Proof.
  split; [reflexivity|].
  exact (@precheck_covers_executor_check _ _ Demo.execute Demo.commit_error
           Demo.select_lower Demo.planner_tables 200 Demo.world0 eq_refl).
Defined.

Lemma forbidden_answer_witness :
  Demo.handle (lit "total revenue per day") (Some (lit "planner"))
  = (Pipeline.ErrorResponse
       (lit "forbidden: role 'planner' cannot access table 'revenue_data'")
       403 (Some (lit "revenue_data")), Demo.world0) /\
  exists sql,
    Demo.nl2sql (lit "total revenue per day") [] = Some sql /\
    In (lit "revenue_data") (_extract_table_names sql) /\
    ~ In (lit "revenue_data") (allowed_tables_for_role (Some (lit "planner"))) /\
    403%Z = 403%Z /\
    lit "forbidden: role 'planner' cannot access table 'revenue_data'"
    = Pipeline.forbidden_message (Some (lit "planner"))
                                 (Some (lit "revenue_data")) /\
    Demo.world0 = Demo.world0.
Proof.
  split; [reflexivity|].
  exact (@forbidden_answer_names_a_refused_table _ _ Demo.execute
           Demo.commit_error Demo.nl2sql Demo.summarize
           (lit "total revenue per day") (Some (lit "planner"))
           Demo.world0 Demo.world0 _ _ _ eq_refl).
Defined.

Lemma rows_only_for_safe_authorized_sql_witness :
  Demo.handle (lit "list the meters") (Some (lit "planner"))
  = (Pipeline.ResultResponse (lit "list the meters") (lit "nl2sql")
       Demo.select_meters [1; 2; 3] [lit "id"] 1 (lit "table")
       (lit "Some rows."), Demo.world0) /\
  _is_safe_statement Demo.select_meters = true /\
  (forall t, In t (_extract_table_names Demo.select_meters) ->
             In t Pipeline.precheck_skipped \/
             In t (allowed_tables_for_role (Some (lit "planner")))).
Proof.
  split; [reflexivity|].
  destruct (@rows_only_for_safe_authorized_sql _ _ Demo.execute
              Demo.commit_error Demo.nl2sql Demo.summarize
              (lit "list the meters") (Some (lit "planner"))
              Demo.world0 Demo.world0 _ _ _ _ _ _ _ _ eq_refl)
    as [_ [Hsafe [Hall _]]].
  split; [exact Hsafe | exact Hall].
Defined.

Lemma error_answers_keep_the_world_witness :
  Demo.handle (lit "the broken one") (Some (lit "admin"))
  = (Pipeline.ErrorResponse (lit "no such column: no_such_column") 400 None,
     Demo.world0) /\
  (400%Z = 400%Z \/ 400%Z = 403%Z) /\ Demo.world0 = Demo.world0.
Proof.
  split; [reflexivity|].
  exact (@error_answers_keep_the_world _ _ Demo.execute Demo.commit_error
           Demo.nl2sql Demo.summarize (lit "the broken one")
           (Some (lit "admin")) Demo.world0 Demo.world0 _ _ _ eq_refl).
Defined.

Lemma silent_exception_witness :
  Pipeline.handle_nl2sql Demo.execute_silent Demo.commit_error Demo.nl2sql
    Demo.summarize (lit "list the meters") (Some (lit "admin")) Demo.world0
  = (Pipeline.ResultResponse (lit "list the meters") (lit "nl2sql")
       Demo.select_meters [] [] 0 (lit "table") (lit "No results found."),
     Demo.world0).
Proof.
  refine (@silent_exception_looks_like_no_rows _ _ Demo.execute_silent
            Demo.commit_error Demo.nl2sql Demo.summarize
            (lit "list the meters") (Some (lit "admin")) Demo.world0
            Demo.select_meters (0 :: disk Demo.world0)
            eq_refl _ eq_refl eq_refl eq_refl).
  discriminate.
Defined.

Lemma chat_rows_witness :
  Demo.chat (Main.JString (lit "list the meters")) (Some (lit "planner"))
  = ((200%Z,
      Main.PipelineReply
        (Pipeline.ResultResponse (lit "list the meters") (lit "nl2sql")
           Demo.select_meters [1; 2; 3] [lit "id"] 1 (lit "table")
           (lit "Some rows."))), Demo.world0) /\
  Pipeline.is_greeting (lit "list the meters") = false /\
  _is_safe_statement Demo.select_meters = true.
Proof.
  split; [reflexivity|].
  destruct (@chat_rows_only_for_allowed_tables _ _ Demo.execute
              Demo.commit_error Demo.nl2sql Demo.summarize
              (Main.JString (lit "list the meters")) (Some (lit "planner"))
              Demo.world0 Demo.world0 _ _ _ _ _ _ _ _ _ eq_refl)
    as [_ [_ [_ [Hg [_ [_ [Hsafe _]]]]]]].
  split; [exact Hg | exact Hsafe].
Defined.

(** A question that is a number: [7] is true and no text, so the call
    raises; [0] is false and is answered like a missing question. *)
Lemma numeric_questions :
  Demo.chat (Main.JOther true) (Some (lit "admin"))
  = ((500%Z, Main.AttributeErrorRaised), Demo.world0) /\
  Demo.chat (Main.JOther false) (Some (lit "admin"))
  = ((422%Z, Main.QuestionRequired), Demo.world0).
Proof. split; reflexivity. Qed.

(** ** Intent, output type and greetings *)

Lemma existsb_contains_occurs (ws : list str) (q : str) :
  Forall is_lowercase ws ->
  (existsb (fun w => contains w (lower q)) ws = true <-> some_word_occurs ws q).
Proof.
  intros Hlow. rewrite existsb_exists. split.
  - intros [w [Hin Hc]]. exists w. split; [exact Hin|].
    apply contains_lower_occurs; [|exact Hc].
    exact (proj1 (Forall_forall _ _) Hlow w Hin).
  - intros [w [Hin Hocc]]. exists w. split; [exact Hin|].
    apply contains_lower_occurs; [|exact Hocc].
    exact (proj1 (Forall_forall _ _) Hlow w Hin).
Qed.

Lemma existsb_contains_none (ws : list str) (q : str) :
  Forall is_lowercase ws ->
  (existsb (fun w => contains w (lower q)) ws = false <->
   ~ some_word_occurs ws q).
Proof.
  intros Hlow. rewrite <- (existsb_contains_occurs q Hlow).
  destruct (existsb _ ws); split; intros; congruence.
Qed.

Lemma graph_words_lowercase : Forall is_lowercase Pipeline.graph_words.
Proof. repeat constructor. Qed.

Lemma nl_words_lowercase : Forall is_lowercase Pipeline.nl_words.
Proof. repeat constructor. Qed.

(** X18.  The output type is decided by priority: [graph] exactly when a
    graph word occurs in the question, letter case aside; [nl] exactly
    when no graph word and some narrative word occurs; [table] exactly
    when no word of either family occurs.  One of the three always
    holds. *)
Theorem output_type_by_priority (question : str) :
  (Pipeline.decide_output_type question = lit "graph" <->
   some_word_occurs Pipeline.graph_words question) /\
  (Pipeline.decide_output_type question = lit "nl" <->
   ~ some_word_occurs Pipeline.graph_words question /\
   some_word_occurs Pipeline.nl_words question) /\
  (Pipeline.decide_output_type question = lit "table" <->
   ~ some_word_occurs Pipeline.graph_words question /\
   ~ some_word_occurs Pipeline.nl_words question).
Proof.
  unfold Pipeline.decide_output_type.
  pose proof (existsb_contains_occurs question graph_words_lowercase) as Hg.
  pose proof (existsb_contains_occurs question nl_words_lowercase) as Hn.
  destruct (existsb _ Pipeline.graph_words) eqn:Eg.
  - assert (G : some_word_occurs Pipeline.graph_words question)
      by (apply Hg; reflexivity).
    repeat split; try discriminate; try tauto.
  - assert (G : ~ some_word_occurs Pipeline.graph_words question)
      by (intros G; apply Hg in G; discriminate G).
    destruct (existsb _ Pipeline.nl_words) eqn:En.
    + assert (N : some_word_occurs Pipeline.nl_words question)
        by (apply Hn; reflexivity).
      repeat split; try discriminate; try tauto.
    + assert (N : ~ some_word_occurs Pipeline.nl_words question)
        by (intros N; apply Hn in N; discriminate N).
      repeat split; try discriminate; try tauto.
Qed.

Lemma occurs_ci_prefix (a b q : str) : occurs_ci (a ++ b) q -> occurs_ci a q.
Proof.
  intros [pre [w [post [-> Hw]]]].
  rewrite lower_app in Hw. unfold lower in Hw at 1.
  apply map_eq_app in Hw as [w1 [w2 [-> [H1 H2]]]].
  exists pre, w1, (w2 ++ post). split; [|exact H1].
  rewrite <- app_assoc. reflexivity.
Qed.

Lemma forecast_keywords_lowercase : Forall is_lowercase Pipeline.forecast_keywords.
Proof. repeat constructor. Qed.

(** X19.  A question goes to the forecast model exactly when one of
    [forecast], [predict], [projection], [future] and [will be] occurs in
    it, letter case aside; the two longer keywords of the list never
    decide.  Every other question goes to the SQL path. *)
Theorem forecast_intent_exactly (question : str) :
  (Pipeline.classify_intent question = lit "python_model" <->
   some_word_occurs
     (map lit ["forecast"; "predict"; "projection"; "future"; "will be"]%string)
     question) /\
  (Pipeline.classify_intent question = lit "python_model" \/
   Pipeline.classify_intent question = lit "nl2sql").
Proof.
  unfold Pipeline.classify_intent.
  pose proof (existsb_contains_occurs question forecast_keywords_lowercase)
    as Hk.
  assert (Hsame : some_word_occurs Pipeline.forecast_keywords question <->
                  some_word_occurs
                    (map lit ["forecast"; "predict"; "projection"; "future";
                              "will be"]%string) question).
  { split; intros [w [Hin Hocc]].
    - destruct Hin as [<-|[<-|[<-|[<-|[<-|[<-|[<-|[]]]]]]]].
      + exists (lit "forecast"). split; [apply mem_In; reflexivity | exact Hocc].
      + exists (lit "predict"). split; [apply mem_In; reflexivity | exact Hocc].
      + exists (lit "projection"). split; [apply mem_In; reflexivity | exact Hocc].
      + exists (lit "future"). split; [apply mem_In; reflexivity | exact Hocc].
      + exists (lit "will be"). split; [apply mem_In; reflexivity | exact Hocc].
      + exists (lit "predict"). split; [apply mem_In; reflexivity|].
        exact (occurs_ci_prefix (lit "predict") (lit " revenue") Hocc).
      + exists (lit "forecast"). split; [apply mem_In; reflexivity|].
        exact (occurs_ci_prefix (lit "forecast") (lit " revenue") Hocc).
    - exists w. split; [|exact Hocc].
      destruct Hin as [<-|[<-|[<-|[<-|[<-|[]]]]]]; apply mem_In; reflexivity. }
  destruct (existsb _ Pipeline.forecast_keywords).
  - split; [|left; reflexivity].
    split; [intros _; apply Hsame, Hk; reflexivity | reflexivity].
  - split; [|right; reflexivity].
    split; [discriminate|]. intros H. apply Hsame, Hk in H. discriminate H.
Qed.

Lemma lstrip_lower (s : str) : lstrip (lower s) = lower (lstrip s).
Proof.
  induction s as [|c s IH]; [reflexivity|].
  change (lower (c :: s)) with (lower_char c :: lower s).
  cbn [lstrip]. rewrite is_space_lower_char.
  destruct (is_space c); [exact IH | reflexivity].
Qed.

(** [strip] and [lower] commute, so the two iterations normalise a
    question to the same text. *)
Lemma strip_lower (s : str) : strip (lower s) = lower (strip s).
Proof.
  unfold strip, rstrip. rewrite lstrip_lower.
  unfold lower at 1. rewrite <- map_rev. fold (lower (rev (lstrip s))).
  rewrite lstrip_lower. unfold lower. rewrite map_rev. reflexivity.
Qed.

Lemma lstrip_spaces (pre s : str) :
  Forall (fun c => is_space c = true) pre -> lstrip (pre ++ s) = lstrip s.
Proof.
  induction 1 as [|c pre Hc _ IH]; [reflexivity|].
  simpl. rewrite Hc. exact IH.
Qed.

Lemma rstrip_spaces (s post : str) :
  Forall (fun c => is_space c = true) post -> rstrip (s ++ post) = rstrip s.
Proof.
  intros H. unfold rstrip. rewrite rev_app_distr, lstrip_spaces;
    [reflexivity|].
  apply Forall_rev. exact H.
Qed.

Lemma lstrip_app_cases (s post : str) :
  lstrip (s ++ post) = lstrip s ++ post \/
  (lstrip s = [] /\ lstrip (s ++ post) = lstrip post).
Proof.
  induction s as [|c s IH]; [right; split; reflexivity|].
  simpl. destruct (is_space c); [exact IH | left; reflexivity].
Qed.

Lemma strip_spaces (pre s post : str) :
  Forall (fun c => is_space c = true) pre ->
  Forall (fun c => is_space c = true) post ->
  strip (pre ++ s ++ post) = strip s.
Proof.
  intros Hpre Hpost. unfold strip. rewrite (lstrip_spaces _ Hpre).
  destruct (lstrip_app_cases s post) as [->|[Hs ->]].
  - apply rstrip_spaces. exact Hpost.
  - rewrite Hs. rewrite <- (app_nil_r post), (lstrip_spaces [] Hpost).
    reflexivity.
Qed.

(** X20.  Whether a text is a greeting depends neither on its letter
    case nor on white space around it; this holds for [is_greeting] of
    both iterations, and every greeting of the earlier one is a greeting
    of the later one. *)
Theorem greeting_ignores_case_and_margins (pre s s' post : str) :
  Forall (fun c => is_space c = true) pre ->
  Forall (fun c => is_space c = true) post ->
  lower s = lower s' ->
  Pipeline.is_greeting (pre ++ s ++ post) = Pipeline.is_greeting s' /\
  ChatbotPipeline.is_greeting (pre ++ s ++ post)
  = ChatbotPipeline.is_greeting s' /\
  (ChatbotPipeline.is_greeting s' = true -> Pipeline.is_greeting s' = true).
Proof.
  intros Hpre Hpost Hs.
  assert (Hnorm : lower (strip (pre ++ s ++ post)) = lower (strip s')).
  { rewrite (strip_spaces s Hpre Hpost), <- !strip_lower, Hs. reflexivity. }
  split; [|split].
  - unfold Pipeline.is_greeting. rewrite Hnorm. reflexivity.
  - unfold ChatbotPipeline.is_greeting. rewrite !strip_lower, Hnorm.
    reflexivity.
  - unfold ChatbotPipeline.is_greeting, Pipeline.is_greeting.
    rewrite strip_lower. generalize (lower (strip s')). intros q H.
    apply existsb_exists in H as [g [Hin Hg]].
    apply existsb_exists. exists g. split.
    + destruct Hin as [<-|[<-|[<-|[<-|[<-|[]]]]]]; apply mem_In; reflexivity.
    + rewrite Hg. reflexivity.
Qed.

Lemma greeting_witness :
  Pipeline.is_greeting (lit "   Good Morning team  ")
  = Pipeline.is_greeting (lit "good morning team") /\
  Pipeline.is_greeting (lit "good morning team") = true /\
  ChatbotPipeline.is_greeting (lit "   Good Morning team  ") = true.
Proof.
  destruct (@greeting_ignores_case_and_margins
              (lit "   ") (lit "Good Morning team") (lit "good morning team")
              (lit "  ")
              ltac:(repeat constructor) ltac:(repeat constructor) eq_refl)
    as [H1 [H2 _]].
  split; [exact H1|]. split; [reflexivity|].
  exact (eq_trans H2 eq_refl).
Defined.

(** X21.  The later iteration only widened the forecast path: a question
    that [classify_intent] of the 19-12 iteration sends to the forecast
    model is sent there by the classifier of the pipeline in front of
    the executor as well. *)
Theorem forecast_intent_is_kept (q : str) :
  ChatbotPipeline.classify_intent q = lit "python_model" ->
  Pipeline.classify_intent q = lit "python_model".
Proof.
  unfold ChatbotPipeline.classify_intent, Pipeline.classify_intent.
  destruct (existsb _ (map lit ["forecast"; "predict"; "projection";
                                "future"]%string)) eqn:E; [|discriminate].
  intros _. apply existsb_exists in E as [w [Hin Hc]].
  assert (H : existsb (fun kw => contains kw (lower q))
                      Pipeline.forecast_keywords = true).
  { apply existsb_exists. exists w. split; [|exact Hc].
    destruct Hin as [<-|[<-|[<-|[<-|[]]]]]; apply mem_In; reflexivity. }
  rewrite H. reflexivity.
Qed.

Lemma forecast_intent_is_kept_witness :
  ChatbotPipeline.classify_intent Demo.forecast_question = lit "python_model" /\
  Pipeline.classify_intent Demo.forecast_question = lit "python_model".
Proof.
  split; [reflexivity|].
  exact (forecast_intent_is_kept Demo.forecast_question eq_refl).
Defined.

(** ** The chart: columns *)

Lemma detect_columns_first_index
      (columns : list str) (i : Z) (d v : option Z) :
  detect_columns columns i d v
  = (match d with
     | Some _ => d
     | None => first_index has_date_name columns i
     end,
     match v with
     | Some _ => v
     | None => first_index has_value_name columns i
     end).
Proof.
  revert i d v. induction columns as [|c columns IH]; intros i d v.
  - destruct d, v; reflexivity.
  - cbn [detect_columns first_index]. rewrite IH.
    fold (has_date_name c). fold (has_value_name c).
    destruct d, v, (has_date_name c), (has_value_name c); reflexivity.
Qed.

Lemma first_index_Some (p : str -> bool) (l : list str) (i j : Z) :
  first_index p l i = Some j ->
  (i <= j < i + Z.of_nat (List.length l))%Z /\
  exists c, nth_error l (Z.to_nat (j - i)) = Some c /\ p c = true /\
            forall k c', (k < Z.to_nat (j - i))%nat ->
                         nth_error l k = Some c' -> p c' = false.
Proof.
  revert i. induction l as [|c l IH]; intros i; cbn [first_index];
    [discriminate|].
  destruct (p c) eqn:E.
  - intros H. injection H as <-. split; [cbn [List.length]; lia|].
    exists c. rewrite Z.sub_diag. repeat split; [exact E|].
    intros k c' Hk. cbn in Hk. lia.
  - intros H. destruct (IH _ H) as [Hr [c0 [Hn [Hp Hbefore]]]].
    split; [cbn [List.length]; lia|].
    exists c0.
    replace (Z.to_nat (j - i)) with (S (Z.to_nat (j - (i + 1)))) by lia.
    repeat split; [exact Hn | exact Hp|].
    intros [|k] c' Hk Hc'.
    + injection Hc' as <-. exact E.
    + apply (Hbefore k c'); [lia | exact Hc'].
Qed.

Lemma first_index_None (p : str -> bool) (l : list str) (i : Z) :
  first_index p l i = None <-> (forall c, In c l -> p c = false).
Proof.
  revert i. induction l as [|c l IH]; intros i; cbn [first_index].
  - split; [intros _ c [] | reflexivity].
  - destruct (p c) eqn:E.
    + split; [discriminate|]. intros H.
      rewrite (H c (or_introl eq_refl)) in E. discriminate.
    + rewrite IH. split.
      * intros H c' [<-|Hin]; [exact E | exact (H c' Hin)].
      * intros H c' Hin. apply H. right. exact Hin.
Qed.

Lemma py_index_in_range (A : Type) (l : list A) (i : Z) :
  (0 <= i < Z.of_nat (List.length l))%Z ->
  py_index l i = nth_error l (Z.to_nat i) /\
  exists x, nth_error l (Z.to_nat i) = Some x.
Proof.
  intros H. unfold py_index.
  destruct (Z.leb_spec 0 i); [|lia]. split; [reflexivity|].
  destruct (nth_error l (Z.to_nat i)) eqn:E; [eexists; reflexivity|].
  apply nth_error_None in E. lia.
Qed.

Lemma column_indices_first_index (columns : list str) :
  column_indices columns
  = (match first_index has_date_name columns 0 with
     | Some i => i | None => 0%Z end,
     match first_index has_value_name columns 0 with
     | Some i => i
     | None => (Z.of_nat (List.length columns) - 1)%Z
     end).
Proof.
  unfold column_indices. rewrite detect_columns_first_index. reflexivity.
Qed.

Lemma column_indices_in_range (columns : list str) :
  columns <> [] ->
  (0 <= fst (column_indices columns) < Z.of_nat (List.length columns))%Z /\
  (0 <= snd (column_indices columns) < Z.of_nat (List.length columns))%Z.
Proof.
  intros Hne. rewrite column_indices_first_index. cbn [fst snd].
  assert (Hlen : (0 < Z.of_nat (List.length columns))%Z).
  { destruct columns; [congruence | cbn [List.length]; lia]. }
  split.
  - destruct (first_index has_date_name columns 0) as [j|] eqn:E; [|lia].
    apply first_index_Some in E as [Hr _]. lia.
  - destruct (first_index has_value_name columns 0) as [j|] eqn:E; [|lia].
    apply first_index_Some in E as [Hr _]. lia.
Qed.

Lemma first_match_or_fallback (p : str -> bool) (columns : list str)
      (fallback : Z) :
  let idx := match first_index p columns 0 with
             | Some i => i | None => fallback end in
  ((forall c, In c columns -> p c = false) -> idx = fallback) /\
  ((exists c, In c columns /\ p c = true) ->
   (0 <= idx)%Z /\
   exists c, nth_error columns (Z.to_nat idx) = Some c /\ p c = true /\
             forall k c', (k < Z.to_nat idx)%nat ->
                          nth_error columns k = Some c' -> p c' = false).
Proof.
  intros idx. unfold idx.
  destruct (first_index p columns 0) as [j|] eqn:E.
  - apply first_index_Some in E as [Hr [c [Hn [Hp Hbefore]]]].
    rewrite Z.sub_0_r in Hn, Hbefore. split.
    + intros Hnone. apply nth_error_In in Hn.
      rewrite (Hnone c Hn) in Hp. discriminate Hp.
    + intros _. split; [lia|]. exists c. repeat split; assumption.
  - pose proof (proj1 (first_index_None p columns 0) E) as Hnone. split.
    + reflexivity.
    + intros [c [Hin Hc]]. rewrite (Hnone c Hin) in Hc. discriminate Hc.
Qed.

(** X22.  The datetime column is the first column whose lower-cased name
    contains [date] or [time], and the first column when there is none;
    the value column is the first column whose lower-cased name contains
    [load], [mw], [kwh] or [revenue], and the last column when there is
    none. *)
Theorem chart_columns_are_the_first_matches (columns : list str) :
  let di := fst (column_indices columns) in
  let vi := snd (column_indices columns) in
  ((forall c, In c columns -> has_date_name c = false) -> di = 0%Z) /\
  ((exists c, In c columns /\ has_date_name c = true) ->
   (0 <= di)%Z /\
   exists c, nth_error columns (Z.to_nat di) = Some c /\
             has_date_name c = true /\
             forall k c', (k < Z.to_nat di)%nat ->
                          nth_error columns k = Some c' ->
                          has_date_name c' = false) /\
  ((forall c, In c columns -> has_value_name c = false) ->
   vi = (Z.of_nat (List.length columns) - 1)%Z) /\
  ((exists c, In c columns /\ has_value_name c = true) ->
   (0 <= vi)%Z /\
   exists c, nth_error columns (Z.to_nat vi) = Some c /\
             has_value_name c = true /\
             forall k c', (k < Z.to_nat vi)%nat ->
                          nth_error columns k = Some c' ->
                          has_value_name c' = false).
Proof.
  intros di vi. unfold di, vi. rewrite column_indices_first_index.
  cbn [fst snd].
  destruct (first_match_or_fallback has_date_name columns 0) as [Hd1 Hd2].
  destruct (first_match_or_fallback has_value_name columns
              (Z.of_nat (List.length columns) - 1)) as [Hv1 Hv2].
  split; [exact Hd1|]. split; [exact Hd2|]. split; [exact Hv1 | exact Hv2].
Qed.

Lemma chart_columns_witness :
  fst (column_indices [lit "meter_id"; lit "Datetime"; lit "Load_kWh"]) = 1%Z /\
  snd (column_indices [lit "meter_id"; lit "Datetime"; lit "Load_kWh"]) = 2%Z /\
  column_indices [lit "a"; lit "b"; lit "c"] = (0%Z, 2%Z).
Proof.
  destruct (chart_columns_are_the_first_matches [lit "a"; lit "b"; lit "c"])
    as [Hd [_ [Hv _]]].
  split; [reflexivity|]. split; [reflexivity|].
  rewrite (surjective_pairing (column_indices _)), Hd, Hv; [reflexivity| |].
  - intros c [<-|[<-|[<-|[]]]]; reflexivity.
  - intros c [<-|[<-|[<-|[]]]]; reflexivity.
Defined.

(** ** The chart: what is handed to the plot *)

Lemma slice_from_le (A : Type) (step : nat) (l : list A) (skip : nat) :
  List.length (slice_from step skip l) <= List.length l.
Proof.
  revert skip. induction l as [|x l IH]; intros skip; simpl; [lia|].
  destruct skip as [|k]; simpl.
  - specialize (IH (step - 1)). lia.
  - specialize (IH k). lia.
Qed.

(** X23.  Downsampling leaves a series of at most 200 points as it is.
    A longer series is cut down to at least 200 and at most 399 points,
    never to more than it had; and two lists of the same length stay of
    the same length. *)
Theorem downsample_bounds (A B : Type) (dates : list A) (values : list B) :
  List.length values = List.length dates ->
  List.length (fst (downsample dates values))
  = List.length (snd (downsample dates values)) /\
  List.length (fst (downsample dates values)) <= List.length dates /\
  List.length (fst (downsample dates values)) <= 399 /\
  (List.length dates <= MAX_POINTS ->
   downsample dates values = (dates, values)) /\
  (MAX_POINTS < List.length dates ->
   MAX_POINTS <= List.length (fst (downsample dates values))).
Proof.
  intros Hlen. unfold downsample, MAX_POINTS.
  destruct (Nat.ltb_spec 200 (List.length dates)) as [Hgt|Hle]; cbn [fst snd].
  - pose proof (slice_from_le (List.length dates / 200) dates 0) as Hcut.
    assert (Hstep : 1 <= List.length dates / 200)
      by (apply Nat.div_le_lower_bound; lia).
    pose proof (@slice_from_length _ _ dates 0 Hstep) as Hl1.
    pose proof (@slice_from_length _ _ values 0 Hstep) as Hl2.
    rewrite Hlen in Hl2. unfold slice_step.
    rewrite Hl1 in *. rewrite Hl2. clear Hl1 Hl2.
    rewrite Nat.sub_0_r in *. unfold ceil_div in *.
    set (n := List.length dates) in *.
    pose proof (Nat.div_mod_eq n 200) as Hn.
    pose proof (Nat.mod_upper_bound n 200 ltac:(lia)) as Hr.
    repeat split.
    + exact Hcut.
    + assert (H : (n + n / 200 - 1) / (n / 200) < 400);
        [apply Nat.Div0.div_lt_upper_bound; lia | lia].
    + lia.
    + intros _. apply Nat.div_le_lower_bound; lia.
  - repeat split; lia.
Qed.

Lemma downsample_bounds_witness :
  List.length (fst (downsample Demo.days401 Demo.loads401)) = 201 /\
  List.length (snd (downsample Demo.days401 Demo.loads401)) = 201 /\
  MAX_POINTS <= List.length (fst (downsample Demo.days401 Demo.loads401)).
Proof.
  destruct (@downsample_bounds _ _ Demo.days401 Demo.loads401 eq_refl)
    as [Hsame [_ [_ [_ Hlow]]]].
  split; [reflexivity|]. split; [rewrite <- Hsame; reflexivity|].
  apply Hlow. apply Nat.ltb_lt. reflexivity.
Defined.

Section ShaperFacts.

Variables cell datetime float : Type.
Variable py_str : cell -> str.
Variable py_float : cell -> option float.
Variable strptime : str -> str -> option datetime.
Variable plot_png : list datetime -> list float -> str -> str.

Local Abbreviation collect_points := (collect_points py_str py_float strptime).
Local Abbreviation render_graph_png :=
  (render_graph_png py_str py_float strptime plot_png).



(** X25.  With at least one column, both column indices are inside the
    column list, and the render does not end in the [IndexError] of the
    y label: it gives [None] or the image. *)
Theorem no_index_error_with_columns
        (rows : list (list cell)) (columns : list str) :
  columns <> [] ->
  (0 <= fst (column_indices columns) < Z.of_nat (List.length columns))%Z /\
  (0 <= snd (column_indices columns) < Z.of_nat (List.length columns))%Z /\
  render_graph_png rows columns <> RenderIndexError.
Proof.
  intros Hne. destruct (column_indices_in_range Hne) as [Hd Hv].
  split; [exact Hd|]. split; [exact Hv|].
  unfold ChatbotPipeline.render_graph_png.
  destruct rows as [|r rows]; [discriminate|].
  destruct (column_indices columns) as [di vi]. cbn [fst snd] in Hv.
  destruct (collect_points di vi (r :: rows)) as [dates values].
  destruct dates as [|d dates]; [discriminate|].
  destruct values as [|v values]; [discriminate|].
  destruct (downsample (d :: dates) (v :: values)) as [dates' values'].
  destruct (py_index_in_range columns Hv) as [-> [x ->]]. discriminate.
Qed.

End ShaperFacts.

Lemma no_index_error_witness :
  Demo.chart_columns <> [] /\
  Demo.render [Demo.good_row_1] Demo.chart_columns <> RenderIndexError /\
  Demo.render [Demo.good_row_1] [] = RenderIndexError.
Proof.
  assert (H : Demo.chart_columns <> []) by discriminate.
  split; [exact H|]. split; [|reflexivity].
  exact (proj2 (proj2 (@no_index_error_with_columns _ _ _ (fun s : str => s)
                         Demo.to_float Demo.strptime Demo.plot
                         [Demo.good_row_1] Demo.chart_columns H))).
Defined.

(** ** Login and the table policy *)

Lemma dict_lookup_USERS (username : str) (user : Auth.user_record) :
  Auth.dict_lookup Auth.USERS username = Some user ->
  (username = lit "admin" /\
   user = Auth.mkUser (lit "admin123") (lit "admin")) \/
  (username = lit "planner" /\
   user = Auth.mkUser (lit "planner123") (lit "planner")).
Proof.
  unfold Auth.USERS. cbn [Auth.dict_lookup].
  destruct (PyStr.eqb (lit "admin") username) eqn:Ea.
  { apply str_eqb_true in Ea. intros H. injection H as <-. left. auto. }
  destruct (PyStr.eqb (lit "planner") username) eqn:Ep; [|discriminate].
  apply str_eqb_true in Ep. intros H. injection H as <-. right. auto.
Qed.

(** X26.  A login succeeds only with the exact name and password of one
    of the two users, letter case included; the answer carries the name
    given and a role that is a key of the table policy, so that every
    user who is logged in may read at least one table. *)
Theorem login_gives_a_role_of_the_policy (username pass u r : str) :
  Auth.authenticate_user username pass = Some (u, r) ->
  u = username /\
  ((username = lit "admin" /\ pass = lit "admin123" /\ r = lit "admin") \/
   (username = lit "planner" /\ pass = lit "planner123" /\ r = lit "planner")) /\
  In r (dict_keys ROLE_TABLES) /\
  allowed_tables_for_role (Some r) <> [].
Proof.
  unfold Auth.authenticate_user.
  destruct (Auth.dict_lookup Auth.USERS username) as [user|] eqn:E;
    [|discriminate].
  destruct (PyStr.eqb (Auth.password user) pass) eqn:Ep; cbn [negb];
    [|discriminate].
  apply str_eqb_true in Ep. intros H. injection H as <- <-.
  split; [reflexivity|].
  destruct (dict_lookup_USERS _ E) as [[-> ->]|[-> ->]]; cbn in Ep |- *;
    subst pass.
  - split; [left; auto|]. split; [left; reflexivity | discriminate].
  - split; [right; auto|]. split; [right; left; reflexivity | discriminate].
Qed.

Lemma login_witness :
  Auth.authenticate_user (lit "planner") (lit "planner123")
  = Some (lit "planner", lit "planner") /\
  Auth.authenticate_user (lit "Planner") (lit "planner123") = None /\
  Auth.authenticate_user (lit "planner") (lit "admin123") = None /\
  allowed_tables_for_role (Some (lit "planner")) <> [].
Proof.
  split; [reflexivity|]. split; [reflexivity|]. split; [reflexivity|].
  exact (proj2 (proj2 (proj2
           (@login_gives_a_role_of_the_policy (lit "planner") (lit "planner123")
              (lit "planner") (lit "planner") eq_refl)))).
Defined.
